(** * The skill selection state of ui/app.js

    A shallow embedding of the client-side state handling of the
    recommender front end: the list [selectedSkills], the hidden
    [interests] control that carries the weighted query, the error panel,
    and the handlers that read and write them.

    Conventions.
    - A JavaScript string is a [string]; a character stands for the code
      unit of the same number, so the strings of the model have code units
      below 256 and the white space of parseInt and trim is the white
      space in that range.
    - A JavaScript Number is a [number]: the exact rational it stands
      for, NaN or an infinity.  parseInt rounds the integer it reads to
      binary64, to the nearest value and to even on a tie, and gives an
      infinity beyond the range; signed zeros are not told apart.
    - A string is no longer than the engine allows: a join whose result
      would be longer throws a RangeError.  The limit is the engine's own;
      [max_string_length] is the one of V8 on 64-bit platforms, and the
      general statements take it as it stands in their hypotheses.
    - Exhaustion of memory is not modelled.  Statements that a computation
      returns, or throws a given error, are made for arrays of at most
      [max_filled_length] elements, a length that is built and filled in
      memory as a matter of course.
    - A function of the program is a computation in [M]: it threads the
      page state and either returns or throws.  What is written before a
      throw stays written.
    - [renderSelectedSkills] and [updateSkillSelectOptions] write markup
      and option styles only; nothing in the program reads those back, so
      they leave the modelled state alone.  The same goes for the writes
      of the add button handler to the two selects, whose values are the
      arguments of the next click.
    - The submit handler is modelled up to its call of fetch; what follows
      the response (cards, feedback, footer) is outside the model. *)

From Stdlib Require Import List String Ascii ZArith QArith Bool Lia.
From Stdlib Require Import Sorted Permutation.
Import ListNotations.
Open Scope string_scope.
Open Scope Z_scope.

(** ** Numbers *)

Inductive number : Type :=
| Finite (q : Q)
| NaN
| Infinity (negative : bool).

Definition Int (z : Z) : number := Finite (inject_Z z).

(** ToUint32 of ECMAScript: truncate towards zero, then reduce modulo 2^32;
    NaN and the infinities go to 0. *)
Definition ToUint32 (n : number) : Z :=
  match n with
  | Finite q => (Z.quot (Qnum q) (Z.pos (Qden q))) mod 2 ^ 32
  | NaN | Infinity _ => 0
  end.

Definition SameValueZero (z : Z) (n : number) : bool :=
  match n with
  | Finite q => Qeq_bool (inject_Z z) q
  | NaN | Infinity _ => false
  end.

(** The Number for a mathematical integer: the nearest binary64 value,
    the even one of two nearest, an infinity from 2^1024 on.  [m] is the
    magnitude; above 2^53 its 53 leading bits are kept and the bits below
    decide the rounding. *)
Definition round_binary64 (m : Z) : Z :=
  if m <? 2 ^ 53 then m
  else
    let e := Z.log2 m - 52 in
    let q := Z.shiftr m e in
    let rem := m mod 2 ^ e in
    let half := 2 ^ (e - 1) in
    let q' :=
      if (half <? rem) || ((rem =? half) && Z.odd q) then q + 1 else q in
    q' * 2 ^ e.

Definition Number_of_integer (z : Z) : number :=
  let m := round_binary64 (Z.abs z) in
  if 2 ^ 1024 <=? m then Infinity (z <? 0) else Int (Z.sgn z * m).

(** ** Strings: white space, trim, parseInt *)

Definition isWhiteSpace (c : ascii) : bool :=
  let n := nat_of_ascii c in
  ((n =? 9) || (n =? 10) || (n =? 11) || (n =? 12) || (n =? 13)
   || (n =? 32) || (n =? 160))%nat.

Fixpoint trimStart (s : string) : string :=
  match s with
  | EmptyString => EmptyString
  | String c r => if isWhiteSpace c then trimStart r else s
  end.

Fixpoint trimEnd (s : string) : string :=
  match s with
  | EmptyString => EmptyString
  | String c r =>
      let r' := trimEnd r in
      if isWhiteSpace c && (r' =? "")%string then EmptyString else String c r'
  end.

Definition trim (s : string) : string := trimEnd (trimStart s).

Definition digitValue (c : ascii) : option Z :=
  let n := Z.of_nat (nat_of_ascii c) in
  if (48 <=? n) && (n <=? 57) then Some (n - 48)
  else if (97 <=? n) && (n <=? 122) then Some (n - 87)
  else if (65 <=? n) && (n <=? 90) then Some (n - 55)
  else None.

Definition radixDigit (R : Z) (c : ascii) : option Z :=
  match digitValue c with
  | Some d => if d <? R then Some d else None
  | None => None
  end.

(** The value of the longest prefix of radix-R digits; [None] when that
    prefix is empty. *)
Fixpoint parseDigits (R : Z) (s : string) (acc : Z) (seen : bool) : option Z :=
  match s with
  | String c r =>
      match radixDigit R c with
      | Some d => parseDigits R r (acc * R + d) true
      | None => if seen then Some acc else None
      end
  | EmptyString => if seen then Some acc else None
  end.

(** parseInt(string) with no radix argument.  The digits are read as a
    mathematical integer, which is then converted to a Number; for runs
    of more than 20 significant decimal digits, where an engine may
    approximate, the correctly rounded value is taken. *)
Definition parseInt (input : string) : number :=
  let S0 := trimStart input in
  let '(sign, S1) :=
    match S0 with
    | String "-" r => (-1, r)
    | String "+" r => (1, r)
    | _ => (1, S0)
    end in
  let '(R, S2) :=
    match S1 with
    | String "0" (String "x" r) => (16, r)
    | String "0" (String "X" r) => (16, r)
    | _ => (10, S1)
    end in
  match parseDigits R S2 0 false with
  | Some z => Number_of_integer (sign * z)
  | None => NaN
  end.

(** parseInt of a value that may be null: null is converted to the string
    "null" first. *)
Definition parseInt_nullable (v : option string) : number :=
  match v with
  | Some s => parseInt s
  | None => parseInt "null"
  end.

(** ** Results and the page state *)

Inductive exception : Type :=
| RangeError (message : string)
| TypeError (message : string).

Inductive result (A : Type) : Type :=
| Ok (a : A)
| Throw (e : exception).
Arguments Ok {A} a.
Arguments Throw {A} e.

Record skill : Type := mkSkill {
  name : string;
  experience : number
}.

Record state : Type := mkState {
  selectedSkills : list skill;
  interests : string;          (* interestsHiddenInput.value *)
  errorText : string;          (* errorText.textContent *)
  errorMessageHidden : bool;   (* 'hidden' in errorMessage.classList *)
  inputSectionHidden : bool;
  resultsSectionHidden : bool;
  loadingHidden : bool
}.

Definition M (A : Type) : Type := state -> result A * state.

Definition ret {A} (a : A) : M A := fun s => (Ok a, s).

Definition throw {A} (e : exception) : M A := fun s => (Throw e, s).

Definition bind {A B} (c : M A) (k : A -> M B) : M B :=
  fun s =>
    match c s with
    | (Ok a, s') => k a s'
    | (Throw e, s') => (Throw e, s')
    end.

Definition get : M state := fun s => (Ok s, s).

Definition modify (f : state -> state) : M unit := fun s => (Ok tt, f s).

Definition lift {A} (r : result A) : M A := fun s => (r, s).

Notation "x <- c ;; k" := (bind c (fun x => k))
  (at level 61, c at next level, right associativity).
Notation "c ;; k" := (bind c (fun _ => k))
  (at level 61, right associativity).

Definition set_selectedSkills (l : list skill) (s : state) : state :=
  mkState l (interests s) (errorText s) (errorMessageHidden s)
          (inputSectionHidden s) (resultsSectionHidden s) (loadingHidden s).

Definition set_interests (v : string) (s : state) : state :=
  mkState (selectedSkills s) v (errorText s) (errorMessageHidden s)
          (inputSectionHidden s) (resultsSectionHidden s) (loadingHidden s).

(** ** Arrays: Array(len), fill, join, map *)

(** An array element is a string or undefined (a hole reads as undefined). *)
Definition element : Type := option string.

(** Array(len) for a Number len. *)
Definition Array (len : number) : result (list element) :=
  let intLen := ToUint32 len in
  if negb (SameValueZero intLen len)
  then Throw (RangeError "Invalid array length")
  else Ok (repeat None (Z.to_nat intLen)).

Definition fill (v : string) (a : list element) : list element :=
  map (fun _ => Some v) a.

Definition elementToString (e : element) : string :=
  match e with
  | Some s => s
  | None => ""
  end.

(** The string Array.prototype.join builds: the accumulator R starts from
    the first element and takes the separator and the next element at
    each later index. *)
Definition join (sep : string) (a : list element) : string :=
  match a with
  | [] => ""
  | x :: rest =>
      fold_left (fun R y => R ++ sep ++ elementToString y) rest
                (elementToString x)
  end.

(** The longest string the engine makes. *)
Definition max_string_length : Z := 2 ^ 29 - 24.

(** A string handed back by a built-in that builds one: the string, or
    the RangeError of a string that would be too long. *)
Definition within_limit (s : string) : result string :=
  if Z.of_nat (String.length s) <=? max_string_length then Ok s
  else Throw (RangeError "Invalid string length").

(** Array.prototype.join as a call: the string [join] describes, if it
    is within the limit. *)
Definition Array_join (sep : string) (a : list element) : result string :=
  within_limit (join sep a).

(** Array.prototype.map with a callback that may throw: the first throw
    ends the traversal. *)
Fixpoint array_map {A B} (f : A -> result B) (a : list A) : result (list B) :=
  match a with
  | [] => Ok []
  | x :: rest =>
      match f x with
      | Throw e => Throw e
      | Ok y =>
          match array_map f rest with
          | Throw e => Throw e
          | Ok ys => Ok (y :: ys)
          end
      end
  end.

(** ** The functions of app.js *)

Definition renderSelectedSkills : M unit := ret tt.

Definition updateSkillSelectOptions : M unit := ret tt.

(** The string built by [updateInterestsInput] before it is stored. *)
Definition weightedSkill (sk : skill) : result element :=
  match Array (experience sk) with
  | Ok a =>
      match Array_join " " (fill (name sk) a) with
      | Ok segment => Ok (Some segment)
      | Throw e => Throw e
      end
  | Throw e => Throw e
  end.

Definition weightedSkills (l : list skill) : result string :=
  match array_map weightedSkill l with
  | Ok segments => Array_join ", " segments
  | Throw e => Throw e
  end.

Definition updateInterestsInput : M unit :=
  s <- get ;;
  w <- lift (weightedSkills (selectedSkills s)) ;;
  modify (set_interests w).

Definition has_name (skillName : string) (sk : skill) : bool :=
  (name sk =? skillName)%string.

(** A parameter with default 3: [None] is the argument left out. *)
Definition default_3 (experienceLevel : option number) : number :=
  match experienceLevel with
  | Some n => n
  | None => Int 3
  end.

Definition addSkill (skillName : string) (experienceLevel : option number)
  : M unit :=
  let experienceLevel := default_3 experienceLevel in
  s <- get ;;
  if existsb (has_name skillName) (selectedSkills s) then ret tt
  else
    modify (fun s =>
      set_selectedSkills
        (selectedSkills s ++ [mkSkill skillName experienceLevel]) s) ;;
    renderSelectedSkills ;;
    updateInterestsInput.

(** The click handler of the add button; its two arguments are the values
    of the skill and experience selects when the button is clicked. *)
Definition addSkillBtn_click (skillSelect_value experienceSelect_value : string)
  : M unit :=
  let skillName := skillSelect_value in
  let experienceLevel := parseInt experienceSelect_value in
  if (skillName =? "")%string then ret tt
  else
    addSkill skillName (Some experienceLevel) ;;
    updateSkillSelectOptions.

Definition removeSkill (skillName : string) : M unit :=
  modify (fun s =>
    set_selectedSkills
      (filter (fun sk => negb (has_name skillName sk)) (selectedSkills s)) s) ;;
  renderSelectedSkills ;;
  updateInterestsInput ;;
  updateSkillSelectOptions.

(** Assignment to the experience field of the object that [find] returns:
    the first entry with the name. *)
Fixpoint assign_experience (skillName : string) (v : number) (l : list skill)
  : list skill :=
  match l with
  | [] => []
  | sk :: rest =>
      if has_name skillName sk then mkSkill (name sk) v :: rest
      else sk :: assign_experience skillName v rest
  end.

Definition updateSkillExperience (skillName newExperience : string) : M unit :=
  s <- get ;;
  match find (has_name skillName) (selectedSkills s) with
  | Some _ =>
      modify (fun s =>
        set_selectedSkills
          (assign_experience skillName (parseInt newExperience)
             (selectedSkills s)) s) ;;
      updateInterestsInput
  | None => ret tt
  end.

Definition showError (message : string) : M unit :=
  modify (fun s =>
    mkState (selectedSkills s) (interests s) message false true true
            (loadingHidden s)).

Definition hideError : M unit :=
  modify (fun s =>
    mkState (selectedSkills s) (interests s) (errorText s) true false
            (resultsSectionHidden s) (loadingHidden s)).

(** What the submit handler hands to fetch. *)
Record request : Type := mkRequest {
  req_k : number;
  req_approach : string;
  req_interests : string
}.

Inductive submission : Type :=
| Blocked
| Fetch (r : request).

(** The submit handler up to its call of fetch.  [k] and [model_type] are
    what the form data holds under those names ([None] for null); the form
    data entry 'interests' is the value of the hidden control. *)
Definition form_submit (k model_type : option string) : M submission :=
  s <- get ;;
  let formData_interests := interests s in
  let k := parseInt_nullable k in
  let modelType :=
    match model_type with
    | None => "hybrid"
    | Some m => if (m =? "")%string then "hybrid" else m
    end in
  if (trim formData_interests =? "")%string then
    showError "Please add at least one skill with experience level" ;;
    ret Blocked
  else if (List.length (selectedSkills s) =? 0)%nat then
    showError "Please add at least one skill with experience level" ;;
    ret Blocked
  else
    modify (fun s =>
      mkState (selectedSkills s) (interests s) (errorText s)
              true true true false) ;;
    ret (Fetch (mkRequest k modelType formData_interests)).

(** ** Test cases *)

Definition testCases : list (string * list (string * Z)) :=
  [ ("cs", [("python", 4); ("machine learning", 3); ("data analysis", 3);
            ("algorithms", 3)]);
    ("bio", [("biology", 4); ("research", 3); ("chemistry", 3);
             ("genetics", 2)]);
    ("business", [("finance", 3); ("marketing", 3); ("management", 2);
                  ("economics", 3)]);
    ("arts", [("design", 4); ("adobe photoshop", 4); ("creativity", 4);
              ("visual communication", 3)]);
    ("engineering", [("engineering", 3); ("mathematics", 4); ("physics", 4);
                     ("problem solving", 4)]) ].

(** Property names every object literal inherits; looking one up in
    [testCases] gives a value that is not undefined and has no skills. *)
Definition inherited_names : list string :=
  [ "constructor"; "hasOwnProperty"; "isPrototypeOf"; "propertyIsEnumerable";
    "toLocaleString"; "toString"; "valueOf"; "__proto__";
    "__defineGetter__"; "__defineSetter__"; "__lookupGetter__";
    "__lookupSetter__" ].

Inductive property : Type :=
| OwnCase (skills : list (string * Z))
| Inherited
| Undefined.

Definition testCases_get (testName : string) : property :=
  match find (fun kv => (fst kv =? testName)%string) testCases with
  | Some kv => OwnCase (snd kv)
  | None =>
      if existsb (String.eqb testName) inherited_names then Inherited
      else Undefined
  end.

(** forEach with a callback in [M]. *)
Fixpoint forEach {A} (f : A -> M unit) (a : list A) : M unit :=
  match a with
  | [] => ret tt
  | x :: rest => f x ;; forEach f rest
  end.

Definition fillTestCase (testName : string) : M unit :=
  match testCases_get testName with
  | Undefined => ret tt
  | Inherited =>
      modify (set_selectedSkills []) ;;
      throw (TypeError "test.skills is undefined")
  | OwnCase skills =>
      modify (set_selectedSkills []) ;;
      forEach (fun sk => addSkill (fst sk) (Some (Int (snd sk)))) skills
  end.

Section Page.

(** What form.reset() leaves in the interests control, as a function of
    the value it holds.  The markup of the form decides it, and the
    markup is not part of the script. *)
Variable form_reset_interests : string -> string.

(** The click handler of the reset button. *)
Definition resetBtn_click : M unit :=
  modify (fun s =>
    mkState (selectedSkills s) (interests s) (errorText s)
            (errorMessageHidden s) false true (loadingHidden s)) ;;
  modify (fun s => set_interests (form_reset_interests (interests s)) s) ;;
  modify (set_selectedSkills []) ;;
  renderSelectedSkills ;;
  updateSkillSelectOptions.

(** ** Events and reachable states *)

Inductive event : Type :=
| AddSkillBtnClick (skillSelect_value experienceSelect_value : string)
| AddSkillCall (skillName : string) (experienceLevel : option number)
| RemoveSkillCall (skillName : string)
| UpdateSkillExperienceCall (skillName newExperience : string)
| ResetBtnClick
| FormSubmit (k model_type : option string)
| FillTestCaseCall (testName : string)
| HideErrorCall.

(** The state an event leaves behind, whether its handler returned or
    threw. *)
Definition step (e : event) (s : state) : state :=
  match e with
  | AddSkillBtnClick n v => snd (addSkillBtn_click n v s)
  | AddSkillCall n l => snd (addSkill n l s)
  | RemoveSkillCall n => snd (removeSkill n s)
  | UpdateSkillExperienceCall n v => snd (updateSkillExperience n v s)
  | ResetBtnClick => snd (resetBtn_click s)
  | FormSubmit k m => snd (form_submit k m s)
  | FillTestCaseCall t => snd (fillTestCase t s)
  | HideErrorCall => snd (hideError s)
  end.

(** The page loads with no skill selected. *)
Inductive reachable : state -> Prop :=
| reachable_load : forall s, selectedSkills s = [] -> reachable s
| reachable_step : forall e s, reachable s -> reachable (step e s).

End Page.

(** form.reset() on a control of type hidden: the value of such a control
    is its value attribute, which the reset restores to itself. *)
Definition hidden_input_reset (v : string) : string := v.

(** A page as loaded, used in the examples: nothing selected, the hidden
    control empty, the form shown and the error, results and loading
    panels hidden. *)
Definition page_load : state := mkState [] "" "" true false true true.

(** ** The aggregator as the specification words it *)

(** A level that counts repetitions: the integer in [0, 2^32) a Number
    stands for, if it does. *)
Definition level_of (n : number) : option nat :=
  match n with
  | Finite q =>
      let z := Z.quot (Qnum q) (Z.pos (Qden q)) in
      if Qeq_bool (inject_Z z) q && (0 <=? z) && (z <? 2 ^ 32)
      then Some (Z.to_nat z) else None
  | NaN | Infinity _ => None
  end.

Definition valid_level (sk : skill) : Prop := level_of (experience sk) <> None.

Definition repetitions (sk : skill) : nat :=
  match level_of (experience sk) with Some n => n | None => 0%nat end.

(** A preference set as the specification has it: names with levels that
    count. *)
Definition SkillEntry : Type := (string * nat)%type.

(** For each entry in order, the name repeated level times joined by single
    spaces; the per-entry segments joined by comma and space. *)
Definition toWeightedQuery (p : list SkillEntry) : string :=
  String.concat ", "
    (map (fun e => String.concat " " (repeat (fst e) (snd e))) p).

(** The entries a list of skills stands for, and the list of skills that
    holds given entries. *)
Definition entries_of (l : list skill) : list SkillEntry :=
  map (fun sk => (name sk, repetitions sk)) l.

Definition stored (p : list SkillEntry) : list skill :=
  map (fun e => mkSkill (fst e) (Int (Z.of_nat (snd e)))) p.

(** A Number that Array accepts as a length. *)
Definition is_integer (n : number) (z : Z) : Prop :=
  match n with
  | Finite q => Qeq q (inject_Z z)
  | NaN | Infinity _ => False
  end.

Definition array_length (n : number) : Prop :=
  exists z : Z, (0 <= z < 2 ^ 32) /\ is_integer n z.

Definition unique_names (l : list skill) : Prop := NoDup (map name l).

Definition entries_named (n : string) (l : list skill) : list skill :=
  filter (has_name n) l.

(** ** States used in the examples *)

(** Python selected at level 3, the stored query in step with it. *)
Definition one_python_3 : state :=
  mkState [mkSkill "python" (Int 3)] "python python python" ""
          true false true true.

(** The page as loaded but for the list, which holds the given entries. *)
Definition two_entries (p : list SkillEntry) : state :=
  mkState (stored p) "" "" true false true true.

(** Python selected at level 2^32, as updateSkillExperience leaves it when
    given the string "4294967296". *)
Definition one_python_2_32 : state :=
  mkState [mkSkill "python" (Int 4294967296)] "python python python" ""
          true false true true.

(** ** The skills file: split, sort and loadSkills *)

Definition newline : ascii := ascii_of_nat 10.

Definition space : ascii := ascii_of_nat 32.

(** String.prototype.split with a separator of one code unit.  The empty
    string splits into one empty piece. *)
Fixpoint split (sep : ascii) (s : string) : list string :=
  match s with
  | EmptyString => [EmptyString]
  | String c r =>
      if Ascii.eqb c sep then EmptyString :: split sep r
      else
        match split sep r with
        | piece :: pieces => String c piece :: pieces
        | [] => [String c EmptyString]
        end
  end.

(** Array.prototype.sort with no comparator, on strings: ascending in the
    order of code units.  The order is total and antisymmetric, so the
    sorted array does not depend on the algorithm; insertion is used
    here. *)
Fixpoint insert (x : string) (l : list string) : list string :=
  match l with
  | [] => [x]
  | y :: rest =>
      if (x <=? y)%string then x :: l else y :: insert x rest
  end.

Definition sort (l : list string) : list string := fold_right insert [] l.

Definition fallbackSkills : list string :=
  sort
    [ "python"; "javascript"; "java"; "c++"; "data analysis";
      "machine learning"; "web development"; "mobile development"; "design";
      "marketing"; "adobe photoshop"; "project management"; "business";
      "finance"; "writing"; "communication"; "leadership"; "research";
      "biology"; "chemistry"; "physics"; "mathematics"; "statistics";
      "economics"; "accounting"; "management"; "sales"; "creativity";
      "problem solving"; "critical thinking"; "teamwork"; "public speaking";
      "social media"; "content creation"; "video editing"; "graphic design";
      "ui/ux design"; "database"; "sql"; "cloud computing"; "cybersecurity";
      "artificial intelligence"; "deep learning"; "neural networks";
      "computer vision"; "natural language processing"; "robotics";
      "embedded systems"; "electronics"; "mechanical engineering";
      "civil engineering"; "architecture"; "art history"; "music theory";
      "film production"; "photography"; "creative writing" ].

(** The value loadSkills gives to availableSkills: from the text of the
    skills file when the fetch delivers one ([Some]), from the fallback
    list when it fails ([None]). *)
Definition loadSkills (response_text : option string) : list string :=
  match response_text with
  | Some text =>
      sort
        (filter (fun skill => (0 <? String.length skill)%nat)
           (map (fun skill => trim skill) (split newline text)))
  | None => fallbackSkills
  end.

(** The skill tags of a recommendation card:
    rec.skills.split(' ').filter(s => s.trim()). *)
Definition card_skills (rec_skills : string) : list string :=
  filter (fun s => negb (trim s =? "")%string) (split space rec_skills).

(** ** Predicates on states and strings used in the properties *)


(** A string the engine can hold. *)
Definition fits (s : string) : Prop :=
  Z.of_nat (String.length s) <= max_string_length.

(** A length up to which Array(len).fill(v) is taken to run to its end,
    and the Numbers that are such lengths. *)
Definition max_filled_length : Z := 2 ^ 24.

Definition level_in_memory (n : number) : Prop :=
  exists z : Z, (0 <= z <= max_filled_length) /\ is_integer n z.

(** The segment of one entry of the list in the weighted query. *)
Definition segment_of (sk : skill) : string :=
  String.concat " " (repeat (name sk) (repetitions sk)).

(** A list whose weighted query is within reach: every level is a
    length filled in memory, and the query is a string the engine can
    hold. *)
Definition computable (l : list skill) : Prop :=
  Forall (fun sk => level_in_memory (experience sk)) l /\
  fits (toWeightedQuery (entries_of l)).

(** The entries whose level Array accepts. *)
Definition counts (sk : skill) : bool :=
  match level_of (experience sk) with
  | Some _ => true
  | None => false
  end.

(** The length of a joined string, counted with one separator too many. *)
Definition joined_size (sep : string) (l : list string) : nat :=
  list_sum (map (fun x => String.length sep + String.length x)%nat l).

(** The value of a run of decimal digits, place by place. *)
Definition digit (c : ascii) : Z :=
  match digitValue c with
  | Some v => v
  | None => 0
  end.

Fixpoint decimal_value (d : string) : Z :=
  match d with
  | EmptyString => 0
  | String c r => digit c * 10 ^ Z.of_nat (String.length r) + decimal_value r
  end.

Definition all_white (s : string) : Prop :=
  Forall (fun c => isWhiteSpace c = true) (list_ascii_of_string s).

Definition starts_white (s : string) : bool :=
  match s with
  | String c _ => isWhiteSpace c
  | EmptyString => false
  end.

Fixpoint ends_white (s : string) : bool :=
  match s with
  | EmptyString => false
  | String c EmptyString => isWhiteSpace c
  | String _ r => ends_white r
  end.

Fixpoint contains (c : ascii) (s : string) : bool :=
  match s with
  | EmptyString => false
  | String d r => Ascii.eqb d c || contains c r
  end.

(** The skills of a test case as list entries and as preference entries. *)
Definition case_skills (skills : list (string * Z)) : list skill :=
  map (fun sk => mkSkill (fst sk) (Int (snd sk))) skills.

Definition case_entries (skills : list (string * Z)) : list SkillEntry :=
  map (fun sk => (fst sk, Z.to_nat (snd sk))) skills.

(** ** truncateSentences *)

(** replace(/\s+/g, ' '): every maximal run of white space becomes one
    space.  A white character followed by another is dropped; the last of
    a run is written as a space. *)
Fixpoint collapse_white (s : string) : string :=
  match s with
  | EmptyString => EmptyString
  | String c r =>
      if isWhiteSpace c then
        match r with
        | String d _ =>
            if isWhiteSpace d then collapse_white r
            else String space (collapse_white r)
        | EmptyString => String space EmptyString
        end
      else String c (collapse_white r)
  end.

(** The class [.!?] of the sentence pattern. *)
Definition isSentenceEnd (c : ascii) : bool :=
  ((c =? ".") || (c =? "!") || (c =? "?"))%char.

Fixpoint take_while (p : ascii -> bool) (s : string) : string :=
  match s with
  | EmptyString => EmptyString
  | String c r => if p c then String c (take_while p r) else EmptyString
  end.

Fixpoint drop_while (p : ascii -> bool) (s : string) : string :=
  match s with
  | EmptyString => EmptyString
  | String c r => if p c then drop_while p r else s
  end.

(** One attempt of /[^.!?]+[.!?]+(?=\s|$)|[^.!?]+$/ at the start of [s].
    Both alternatives begin with the longest run of characters outside
    the class; giving characters back never helps, since the next
    character is then outside the class where [.!?] is wanted, or inside
    it where white space or the end is wanted.  The first alternative
    adds the longest run inside the class and wants white space or the end
    after it; the second wants the first run to reach the end. *)
Definition sentence_at (s : string) : option string :=
  let a := take_while (fun c => negb (isSentenceEnd c)) s in
  let r := drop_while (fun c => negb (isSentenceEnd c)) s in
  let b := take_while isSentenceEnd r in
  let r' := drop_while isSentenceEnd r in
  if (a =? "")%string then None
  else if negb (b =? "")%string && ((r' =? "")%string || starts_white r')
  then Some (a ++ b)
  else if (r =? "")%string then Some a
  else None.

(** match with the g flag: the attempts go from left to right, the next
    one starting where a match ended, or one character further on when
    there was none.  [skip] counts the characters of the last match that
    are still ahead. *)
Fixpoint match_sentences (skip : nat) (s : string) : list string :=
  match s with
  | EmptyString => []
  | String _ r =>
      match skip with
      | S k => match_sentences k r
      | O =>
          match sentence_at s with
          | Some m => m :: match_sentences (Nat.pred (String.length m)) r
          | None => match_sentences 0 r
          end
      end
  end.

(** The parameter maxSentences with its default 3; the callers pass
    counts. *)
Definition default_max (maxSentences : option nat) : nat :=
  match maxSentences with
  | Some n => n
  | None => 3%nat
  end.

(** [text] is [None] for null and undefined. *)
Definition truncateSentences (text : option string)
  (maxSentences : option nat) : string :=
  let maxSentences := default_max maxSentences in
  match text with
  | None => ""
  | Some text =>
      let clean := trim (collapse_white text) in
      if (clean =? "")%string then ""
      else
        let matches := match_sentences 0 clean in
        let sentences :=
          filter (fun s => negb (s =? "")%string)
                 (map (fun s => trim s) matches) in
        if (List.length sentences <=? maxSentences)%nat then clean
        else
          trim (join " " (map Some (firstn maxSentences sentences))) ++ " ..."
  end.

(** White space occurs in [s] only as single spaces between other
    characters or at the ends. *)
Fixpoint single_spaced (s : string) : bool :=
  match s with
  | EmptyString => true
  | String c r =>
      (negb (isWhiteSpace c) || (Ascii.eqb c space && negb (starts_white r)))
      && single_spaced r
  end.

Fixpoint all_chars (p : ascii -> bool) (s : string) : bool :=
  match s with
  | EmptyString => true
  | String c r => p c && all_chars p r
  end.

(** Decimal digits, and the test of the first character of a string. *)
Definition decimal (c : ascii) : bool :=
  match radixDigit 10 c with
  | Some _ => true
  | None => false
  end.

Definition starts_with (p : ascii -> bool) (s : string) : bool :=
  match s with
  | String c _ => p c
  | EmptyString => false
  end.

Definition is_x (c : ascii) : bool := ((c =? "x") || (c =? "X"))%char.

(** What the handlers of the list leave alone: the error text and the
    four visibility flags. *)
Definition panel (s : state) : string * bool * bool * bool * bool :=
  (errorText s, errorMessageHidden s, inputSectionHidden s,
   resultsSectionHidden s, loadingHidden s).

(** The order of the default sort. *)
Definition string_le (a b : string) : Prop := (a <=? b)%string = true.

(** * Properties *)

(** ** Array lengths *)

Lemma Array_level_of (n : number) :
  Array n =
  match level_of n with
  | Some k => Ok (repeat None k)
  | None => Throw (RangeError "Invalid array length")
  end.
Proof.
  destruct n as [q| |b]; try reflexivity.
  unfold Array, level_of, ToUint32, SameValueZero.
  set (z := Z.quot (Qnum q) (Z.pos (Qden q))).
  assert (Hm : 0 < 2 ^ 32) by reflexivity.
  pose proof (Z.mod_pos_bound z (2 ^ 32) Hm) as Hb.
  remember (z mod 2 ^ 32) as m eqn:Em.
  destruct (Qeq_bool (inject_Z m) q) eqn:Hq; cbn [negb].
  - assert (Hz : z = m).
    { apply Qeq_bool_iff in Hq. unfold Qeq, inject_Z in Hq.
      cbn [Qnum Qden] in Hq. rewrite Z.mul_1_r in Hq.
      unfold z. rewrite <- Hq. apply Z.quot_mul. discriminate. }
    rewrite Hz, Hq.
    destruct (Z.leb_spec 0 m); [|lia].
    destruct (Z.ltb_spec m (2 ^ 32)); [|lia].
    reflexivity.
  - destruct (Qeq_bool (inject_Z z) q) eqn:Hq'; cbn [andb]; [|reflexivity].
    destruct (Z.leb_spec 0 z); cbn [andb]; [|reflexivity].
    destruct (Z.ltb_spec z (2 ^ 32)); cbn [andb]; [|reflexivity].
    rewrite Z.mod_small in Em by lia. congruence.
Qed.

Lemma level_of_Int (z : Z) :
  level_of (Int z) =
  if (0 <=? z) && (z <? 2 ^ 32) then Some (Z.to_nat z) else None.
Proof.
  unfold level_of, Int, inject_Z. simpl Qnum. simpl Qden.
  rewrite Z.quot_1_r.
  replace (Qeq_bool (z # 1) (z # 1)) with true; [reflexivity|].
  symmetry. apply Qeq_bool_iff. reflexivity.
Qed.

(** ** join against String.concat *)

Lemma append_assoc (a b c : string) : (a ++ b) ++ c = a ++ (b ++ c).
Proof. induction a as [|x a IH]; simpl; [reflexivity | now rewrite IH]. Qed.

Lemma append_empty_r (a : string) : a ++ "" = a.
Proof. induction a as [|x a IH]; simpl; [reflexivity | now rewrite IH]. Qed.

Lemma concat_empty_cons (a : string) (l : list string) :
  String.concat "" (a :: l) = a ++ String.concat "" l.
Proof.
  destruct l as [|b l]; [simpl; now rewrite append_empty_r | reflexivity].
Qed.

Lemma join_loop (sep : string) (rest : list element) (R : string) :
  fold_left (fun R y => R ++ sep ++ elementToString y) rest R =
  R ++ String.concat "" (map (fun y => sep ++ elementToString y) rest).
Proof.
  revert R. induction rest as [|y rest IH]; intro R.
  - simpl. now rewrite append_empty_r.
  - cbn [fold_left map]. rewrite IH, concat_empty_cons.
    now rewrite append_assoc.
Qed.

Lemma concat_cons (sep x : string) (l : list string) :
  String.concat sep (x :: l) =
  x ++ String.concat "" (map (fun y => sep ++ y) l).
Proof.
  revert x. induction l as [|y l IH]; intro x.
  - simpl. now rewrite append_empty_r.
  - change (String.concat sep (x :: y :: l))
      with (x ++ sep ++ String.concat sep (y :: l)).
    rewrite IH. cbn [map]. rewrite concat_empty_cons.
    now rewrite append_assoc.
Qed.

Lemma join_concat (sep : string) (a : list element) :
  join sep a = String.concat sep (map elementToString a).
Proof.
  destruct a as [|x rest]; [reflexivity|].
  unfold join. rewrite join_loop. simpl map. rewrite concat_cons.
  now rewrite map_map.
Qed.

Lemma fill_repeat (v : string) (k : nat) :
  map elementToString (fill v (repeat None k)) = repeat v k.
Proof.
  unfold fill. induction k as [|k IH]; simpl; [reflexivity | now rewrite IH].
Qed.

(** ** The weighted string of the code and of the specification *)

Lemma length_append (a b : string) :
  String.length (a ++ b) = (String.length a + String.length b)%nat.
Proof. induction a as [|c a IH]; cbn; [reflexivity | now rewrite IH]. Qed.

Lemma list_sum_cons (a : nat) (l : list nat) :
  list_sum (a :: l) = (a + list_sum l)%nat.
Proof. reflexivity. Qed.

Lemma concat_length (sep : string) (l : list string) :
  String.length (String.concat sep l) =
  (joined_size sep l - String.length sep)%nat.
Proof.
  unfold joined_size. destruct l as [|x l]; [reflexivity|].
  rewrite concat_cons, length_append. cbn [map]. rewrite list_sum_cons.
  assert (H : String.length
                (String.concat "" (map (fun y => sep ++ y) l)) =
              list_sum (map (fun x => String.length sep + String.length x)%nat l)).
  { induction l as [|y l IH]; [reflexivity|].
    cbn [map]. rewrite list_sum_cons, concat_empty_cons, !length_append, IH.
    reflexivity. }
  rewrite H. lia.
Qed.

Lemma joined_size_in (sep x : string) (l : list string) :
  In x l -> (String.length sep + String.length x <= joined_size sep l)%nat.
Proof.
  unfold joined_size. induction l as [|y l IH]; [contradiction|].
  cbn [map]. rewrite list_sum_cons.
  intros [->|Hin]; [lia|]. specialize (IH Hin). lia.
Qed.

Lemma concat_length_in (sep x : string) (l : list string) :
  In x l -> (String.length x <= String.length (String.concat sep l))%nat.
Proof.
  intro Hin. rewrite concat_length.
  pose proof (joined_size_in sep x l Hin). lia.
Qed.

Lemma joined_size_filter {A} (sep : string) (g : A -> string)
  (f : A -> bool) (l : list A) :
  (joined_size sep (map g (filter f l)) <= joined_size sep (map g l))%nat.
Proof.
  unfold joined_size. induction l as [|x l IH]; [reflexivity|].
  cbn [filter map]. destruct (f x); cbn [map]; rewrite ?list_sum_cons; lia.
Qed.

Lemma within_limit_fits (s : string) : fits s -> within_limit s = Ok s.
Proof.
  unfold fits, within_limit. intro H.
  destruct (Z.leb_spec (Z.of_nat (String.length s)) max_string_length);
    [reflexivity | lia].
Qed.

Lemma within_limit_Ok (s w : string) :
  within_limit s = Ok w -> w = s /\ fits s.
Proof.
  unfold fits, within_limit.
  destruct (Z.leb_spec (Z.of_nat (String.length s)) max_string_length);
    [|discriminate].
  intros [= <-]. now split.
Qed.

Lemma within_limit_Throw (s : string) (e : exception) :
  within_limit s = Throw e -> e = RangeError "Invalid string length".
Proof.
  unfold within_limit. destruct (_ <=? _); [discriminate | now intros [= <-]].
Qed.

Lemma toWeightedQuery_segments (l : list skill) :
  toWeightedQuery (entries_of l) = String.concat ", " (map segment_of l).
Proof. unfold toWeightedQuery, entries_of. now rewrite map_map. Qed.

(** One entry: the RangeError of Array for a level that is no array
    length, else the segment if it is within the limit. *)
Lemma weightedSkill_run (sk : skill) :
  weightedSkill sk =
  match level_of (experience sk) with
  | None => Throw (RangeError "Invalid array length")
  | Some _ =>
      match within_limit (segment_of sk) with
      | Ok segment => Ok (Some segment)
      | Throw e => Throw e
      end
  end.
Proof.
  unfold weightedSkill, Array_join, segment_of, repetitions.
  rewrite Array_level_of.
  destruct (level_of (experience sk)) as [k|]; [|reflexivity].
  now rewrite join_concat, fill_repeat.
Qed.

Lemma array_map_weightedSkill_Ok (l : list skill) (segments : list element) :
  array_map weightedSkill l = Ok segments ->
  Forall valid_level l /\ segments = map (fun sk => Some (segment_of sk)) l.
Proof.
  revert segments. induction l as [|sk l IH]; intros segments.
  - cbn. intros [= <-]. now split.
  - cbn [array_map]. rewrite weightedSkill_run. unfold valid_level.
    destruct (level_of (experience sk)) as [k|] eqn:Hk; [|discriminate].
    destruct (within_limit (segment_of sk)) as [w|e] eqn:Hw; [|discriminate].
    destruct (array_map weightedSkill l) as [rest|e]; [|discriminate].
    intros [= <-]. destruct (IH rest eq_refl) as [Hv ->].
    apply within_limit_Ok in Hw as [-> _]. split; [|reflexivity].
    constructor; [rewrite Hk; discriminate | exact Hv].
Qed.

Lemma array_map_weightedSkill_fits (l : list skill) :
  Forall valid_level l -> Forall (fun sk => fits (segment_of sk)) l ->
  array_map weightedSkill l = Ok (map (fun sk => Some (segment_of sk)) l).
Proof.
  intros Hv Hf. induction Hv as [|sk l Hsk Hl IH]; [reflexivity|].
  inversion Hf as [|? ? Hs Hf']; subst.
  cbn [array_map map]. rewrite weightedSkill_run. unfold valid_level in Hsk.
  destruct (level_of (experience sk)); [|congruence].
  rewrite (within_limit_fits _ Hs), (IH Hf'). reflexivity.
Qed.

Lemma array_map_weightedSkill_Throw (l : list skill) (e : exception) :
  array_map weightedSkill l = Throw e -> exists msg, e = RangeError msg.
Proof.
  induction l as [|sk l IH]; [discriminate|].
  cbn [array_map]. rewrite weightedSkill_run.
  destruct (level_of (experience sk)); [|intros [= <-]; eauto].
  destruct (within_limit (segment_of sk)) as [w|e'] eqn:Hw.
  - destruct (array_map weightedSkill l) as [rest|e'']; [discriminate|].
    intros [= <-]. now apply IH.
  - intros [= <-]. apply within_limit_Throw in Hw. eauto.
Qed.

Lemma segments_string (l : list skill) :
  join ", " (map (fun sk => Some (segment_of sk)) l) =
  toWeightedQuery (entries_of l).
Proof.
  rewrite join_concat, map_map, toWeightedQuery_segments. reflexivity.
Qed.

Lemma segments_fit (l : list skill) :
  fits (toWeightedQuery (entries_of l)) ->
  Forall (fun sk => fits (segment_of sk)) l.
Proof.
  unfold fits. rewrite toWeightedQuery_segments. intro H.
  apply Forall_forall. intros sk Hin.
  pose proof (concat_length_in ", " (segment_of sk) (map segment_of l)
                (in_map segment_of l sk Hin)). lia.
Qed.

Lemma weightedSkills_valid (l : list skill) :
  Forall valid_level l -> fits (toWeightedQuery (entries_of l)) ->
  weightedSkills l = Ok (toWeightedQuery (entries_of l)).
Proof.
  intros Hv Hf. unfold weightedSkills, Array_join.
  rewrite (array_map_weightedSkill_fits l Hv (segments_fit l Hf)).
  rewrite segments_string. now apply within_limit_fits.
Qed.

Lemma weightedSkills_Ok (l : list skill) (w : string) :
  weightedSkills l = Ok w ->
  Forall valid_level l /\ w = toWeightedQuery (entries_of l) /\ fits w.
Proof.
  unfold weightedSkills, Array_join.
  destruct (array_map weightedSkill l) as [segments|e] eqn:Hm; [|discriminate].
  apply array_map_weightedSkill_Ok in Hm as [Hv ->].
  rewrite segments_string. intro Hw.
  apply within_limit_Ok in Hw as [-> Hf]. now repeat split.
Qed.

Lemma weightedSkills_Throw (l : list skill) (e : exception) :
  weightedSkills l = Throw e -> exists msg, e = RangeError msg.
Proof.
  unfold weightedSkills, Array_join.
  destruct (array_map weightedSkill l) as [segments|e'] eqn:Hm.
  - intro Hw. apply within_limit_Throw in Hw. eauto.
  - intros [= <-]. now apply (array_map_weightedSkill_Throw l).
Qed.

Lemma weightedSkills_not_Ok (l : list skill) :
  (forall w, weightedSkills l <> Ok w) ->
  exists msg, weightedSkills l = Throw (RangeError msg).
Proof.
  intro H. destruct (weightedSkills l) as [w|e] eqn:Hw.
  - exfalso. now apply (H w).
  - destruct (weightedSkills_Throw l e Hw) as [msg ->]. eauto.
Qed.

Lemma weightedSkills_invalid (l : list skill) :
  Exists (fun sk => ~ valid_level sk) l ->
  exists msg, weightedSkills l = Throw (RangeError msg).
Proof.
  intro H. apply weightedSkills_not_Ok. intros w Hw.
  apply weightedSkills_Ok in Hw as [Hv _].
  apply Exists_exists in H as [sk [Hin Hsk]].
  rewrite Forall_forall in Hv. now apply Hsk, Hv.
Qed.

Lemma weightedSkills_too_long (l : list skill) :
  ~ fits (toWeightedQuery (entries_of l)) ->
  exists msg, weightedSkills l = Throw (RangeError msg).
Proof.
  intro H. apply weightedSkills_not_Ok. intros w Hw.
  apply weightedSkills_Ok in Hw as [_ [-> Hf]]. contradiction.
Qed.

Lemma valid_level_dec (sk : skill) : {valid_level sk} + {~ valid_level sk}.
Proof.
  unfold valid_level. destruct (level_of (experience sk)).
  - left. discriminate.
  - right. intro H. now apply H.
Qed.

Lemma weightedSkills_total (l : list skill) :
  weightedSkills l = Ok (toWeightedQuery (entries_of l)) \/
  exists msg, weightedSkills l = Throw (RangeError msg).
Proof.
  destruct (weightedSkills l) as [w|e] eqn:Hw.
  - left. now apply weightedSkills_Ok in Hw as [_ [-> _]].
  - right. destruct (weightedSkills_Throw l e Hw) as [msg ->]. eauto.
Qed.

Lemma updateInterestsInput_run (s : state) :
  updateInterestsInput s =
  match weightedSkills (selectedSkills s) with
  | Ok w => (Ok tt, set_interests w s)
  | Throw e => (Throw e, s)
  end.
Proof.
  unfold updateInterestsInput, bind, get, lift, modify.
  now destruct (weightedSkills (selectedSkills s)).
Qed.

(** ** Names in the list *)

Lemma has_name_true (n : string) (sk : skill) :
  has_name n sk = true <-> name sk = n.
Proof. unfold has_name. apply String.eqb_eq. Qed.

Lemma has_name_false (n : string) (sk : skill) :
  has_name n sk = false <-> name sk <> n.
Proof. unfold has_name. apply String.eqb_neq. Qed.

Lemma some_has_name (n : string) (l : list skill) :
  existsb (has_name n) l = true <-> In n (map name l).
Proof.
  rewrite existsb_exists, in_map_iff. split.
  - intros [sk [Hin Hn]]. exists sk. split; [now apply has_name_true | exact Hin].
  - intros [sk [Hn Hin]]. exists sk. split; [exact Hin | now apply has_name_true].
Qed.

Lemma none_has_name (n : string) (l : list skill) :
  existsb (has_name n) l = false <-> ~ In n (map name l).
Proof.
  rewrite <- some_has_name. destruct (existsb (has_name n) l); split; intro H.
  - discriminate.
  - exfalso. now apply H.
  - discriminate.
  - reflexivity.
Qed.

Lemma find_has_name (n : string) (l : list skill) :
  find (has_name n) l = None <-> ~ In n (map name l).
Proof.
  rewrite <- none_has_name.
  induction l as [|sk l IH]; simpl; [tauto|].
  destruct (has_name n sk); simpl; [split; discriminate | exact IH].
Qed.

Lemma assign_experience_names (n : string) (v : number) (l : list skill) :
  map name (assign_experience n v l) = map name l.
Proof.
  induction l as [|sk l IH]; simpl; [reflexivity|].
  destruct (has_name n sk); simpl; [reflexivity | now rewrite IH].
Qed.

Lemma find_assign_experience (n : string) (v : number) (l : list skill) :
  In n (map name l) ->
  find (has_name n) (assign_experience n v l) = Some (mkSkill n v).
Proof.
  induction l as [|sk l IH]; simpl; [tauto|].
  intros [Hn | Hin].
  - apply has_name_true in Hn as Hb. rewrite Hb. simpl.
    unfold has_name at 1. simpl. rewrite Hn, String.eqb_refl. reflexivity.
  - destruct (has_name n sk) eqn:Hb; simpl.
    + unfold has_name at 1. simpl. apply has_name_true in Hb.
      rewrite Hb, String.eqb_refl. reflexivity.
    + rewrite Hb. now apply IH.
Qed.

Lemma assign_experience_others (n m : string) (v : number) (l : list skill) :
  m <> n ->
  filter (has_name m) (assign_experience n v l) = filter (has_name m) l.
Proof.
  intro Hneq. induction l as [|sk l IH]; [reflexivity|].
  cbn [assign_experience]. destruct (has_name n sk) eqn:Hb; cbn [filter].
  - apply has_name_true in Hb.
    assert (Hm : has_name m sk = false)
      by (apply has_name_false; congruence).
    change (has_name m (mkSkill (name sk) v)) with (has_name m sk).
    now rewrite Hm.
  - destruct (has_name m sk); now rewrite IH.
Qed.

(** ** How each handler runs *)

Lemma addSkill_run (n : string) (L : option number) (s : state) :
  addSkill n L s =
  if existsb (has_name n) (selectedSkills s) then (Ok tt, s)
  else updateInterestsInput
         (set_selectedSkills (selectedSkills s ++ [mkSkill n (default_3 L)]) s).
Proof.
  unfold addSkill, bind, get, modify, renderSelectedSkills, ret.
  destruct (existsb (has_name n) (selectedSkills s)); reflexivity.
Qed.

Lemma updateInterestsInput_selectedSkills (s : state) :
  selectedSkills (snd (updateInterestsInput s)) = selectedSkills s.
Proof.
  rewrite updateInterestsInput_run.
  destruct (weightedSkills (selectedSkills s)); reflexivity.
Qed.

Lemma updateInterestsInput_panel (s : state) :
  let s' := snd (updateInterestsInput s) in
  errorText s' = errorText s /\
  errorMessageHidden s' = errorMessageHidden s /\
  inputSectionHidden s' = inputSectionHidden s /\
  resultsSectionHidden s' = resultsSectionHidden s /\
  loadingHidden s' = loadingHidden s.
Proof.
  cbv zeta. rewrite updateInterestsInput_run.
  destruct (weightedSkills (selectedSkills s)); repeat split.
Qed.

Lemma addSkill_selectedSkills (n : string) (L : option number) (s : state) :
  selectedSkills (snd (addSkill n L s)) =
  if existsb (has_name n) (selectedSkills s) then selectedSkills s
  else (selectedSkills s ++ [mkSkill n (default_3 L)])%list.
Proof.
  rewrite addSkill_run.
  destruct (existsb (has_name n) (selectedSkills s)); [reflexivity|].
  now rewrite updateInterestsInput_selectedSkills.
Qed.

Lemma addSkillBtn_click_run (n v : string) (s : state) :
  addSkillBtn_click n v s =
  if (n =? "")%string then (Ok tt, s) else addSkill n (Some (parseInt v)) s.
Proof.
  unfold addSkillBtn_click, bind, updateSkillSelectOptions, ret.
  destruct (n =? "")%string; [reflexivity|].
  destruct (addSkill n (Some (parseInt v)) s) as [[[]|e] s']; reflexivity.
Qed.

Lemma removeSkill_run (n : string) (s : state) :
  removeSkill n s =
  updateInterestsInput
    (set_selectedSkills
       (filter (fun sk => negb (has_name n sk)) (selectedSkills s)) s).
Proof.
  unfold removeSkill, bind, modify, renderSelectedSkills,
    updateSkillSelectOptions, ret.
  match goal with
  | |- match ?c with _ => _ end = _ => destruct c as [[[]|e] s']; reflexivity
  end.
Qed.

Lemma removeSkill_selectedSkills (n : string) (s : state) :
  selectedSkills (snd (removeSkill n s)) =
  filter (fun sk => negb (has_name n sk)) (selectedSkills s).
Proof.
  rewrite removeSkill_run. now rewrite updateInterestsInput_selectedSkills.
Qed.

Lemma updateSkillExperience_run (n v : string) (s : state) :
  updateSkillExperience n v s =
  match find (has_name n) (selectedSkills s) with
  | Some _ =>
      updateInterestsInput
        (set_selectedSkills
           (assign_experience n (parseInt v) (selectedSkills s)) s)
  | None => (Ok tt, s)
  end.
Proof.
  unfold updateSkillExperience, bind, get, modify, ret.
  destruct (find (has_name n) (selectedSkills s)); reflexivity.
Qed.

Lemma updateSkillExperience_selectedSkills (n v : string) (s : state) :
  selectedSkills (snd (updateSkillExperience n v s)) =
  match find (has_name n) (selectedSkills s) with
  | Some _ => assign_experience n (parseInt v) (selectedSkills s)
  | None => selectedSkills s
  end.
Proof.
  rewrite updateSkillExperience_run.
  destruct (find (has_name n) (selectedSkills s)); [|reflexivity].
  now rewrite updateInterestsInput_selectedSkills.
Qed.

(** ** Levels that count *)

Lemma is_integer_unique (q : Q) (a b : Z) :
  Qeq (inject_Z a) q -> Qeq q (inject_Z b) -> a = b.
Proof.
  intros Ha Hb. apply inject_Z_injective. now rewrite Ha.
Qed.

Lemma level_of_array_length (n : number) :
  level_of n <> None <-> array_length n.
Proof.
  unfold array_length. destruct n as [q| |b]; cbn [level_of is_integer].
  - remember (Z.quot (Qnum q) (Z.pos (Qden q))) as z eqn:Ez.
    destruct (Qeq_bool (inject_Z z) q) eqn:Hq; cbn [andb].
    + apply Qeq_bool_iff in Hq.
      destruct (Z.leb_spec 0 z); cbn [andb].
      * destruct (Z.ltb_spec z (2 ^ 32)).
        -- split; [|intros _; discriminate]. intros _. exists z.
           split; [lia | now symmetry].
        -- split; [congruence|]. intros [z' [Hb Hz']]. exfalso.
           pose proof (is_integer_unique q z z' Hq Hz'). lia.
      * split; [congruence|]. intros [z' [Hb Hz']]. exfalso.
        pose proof (is_integer_unique q z z' Hq Hz'). lia.
    + split; [congruence|]. intros [z' [Hb Hz']]. exfalso.
      assert (Hzz : z = z').
      { rewrite Ez. unfold Qeq, inject_Z in Hz'. cbn [Qnum Qden] in Hz'.
        rewrite Z.mul_1_r in Hz'. rewrite Hz'.
        apply Z.quot_mul. discriminate. }
      rewrite Hzz in Hq. apply Qeq_bool_neq in Hq. apply Hq. now symmetry.
  - split; [congruence | intros [z [_ []]]].
  - split; [congruence | intros [z [_ []]]].
Qed.

Lemma valid_level_array_length (sk : skill) :
  valid_level sk <-> array_length (experience sk).
Proof. apply level_of_array_length. Qed.

Lemma array_length_Int (z : Z) : array_length (Int z) <-> 0 <= z < 2 ^ 32.
Proof.
  unfold array_length, Int. cbn [is_integer]. split.
  - intros [z' [Hb Hz]].
    pose proof (is_integer_unique (inject_Z z) z z' (Qeq_refl _) Hz). lia.
  - intro Hb. exists z. split; [lia | reflexivity].
Qed.

Lemma entries_of_stored (p : list SkillEntry) :
  Forall (fun e => Z.of_nat (snd e) < 2 ^ 32) p ->
  Forall valid_level (stored p) /\ entries_of (stored p) = p.
Proof.
  induction 1 as [|[n k] p Hk Hp [IHv IHe]]; [split; [constructor | reflexivity]|].
  simpl in Hk.
  assert (Hl : level_of (Int (Z.of_nat k)) = Some k).
  { rewrite level_of_Int.
    destruct (Z.leb_spec 0 (Z.of_nat k)); [|lia].
    destruct (Z.ltb_spec (Z.of_nat k) (2 ^ 32)); [|lia].
    cbn [andb]. now rewrite Nat2Z.id. }
  split.
  - constructor; [|exact IHv]. unfold valid_level. cbn [experience fst snd].
    rewrite Hl. discriminate.
  - cbn [stored entries_of map]. fold (stored p). fold (entries_of (stored p)).
    rewrite IHe. unfold repetitions. cbn [experience name fst snd].
    now rewrite Hl.
Qed.

Lemma level_in_memory_array_length (n : number) :
  level_in_memory n -> array_length n.
Proof.
  intros [z [Hz Hi]]. exists z. split; [|exact Hi].
  unfold max_filled_length in Hz. lia.
Qed.

Lemma level_in_memory_Int (z : Z) :
  level_in_memory (Int z) <-> 0 <= z <= max_filled_length.
Proof.
  unfold level_in_memory, Int. cbn [is_integer]. split.
  - intros [z' [Hb Hz]].
    pose proof (is_integer_unique (inject_Z z) z z' (Qeq_refl _) Hz). lia.
  - intro Hb. exists z. split; [lia | reflexivity].
Qed.

Lemma levels_in_memory_valid (l : list skill) :
  Forall (fun sk => level_in_memory (experience sk)) l -> Forall valid_level l.
Proof.
  intro H. eapply Forall_impl; [|exact H].
  intros sk Hsk. now apply valid_level_array_length,
                   level_in_memory_array_length.
Qed.

Lemma weightedSkills_computable (l : list skill) :
  computable l -> weightedSkills l = Ok (toWeightedQuery (entries_of l)).
Proof.
  intros [Hm Hf]. apply weightedSkills_valid; [|exact Hf].
  now apply levels_in_memory_valid.
Qed.

Lemma array_map_weightedSkill_long (l : list skill) (e : exception) :
  Forall valid_level l -> array_map weightedSkill l = Throw e ->
  e = RangeError "Invalid string length".
Proof.
  induction 1 as [|sk l Hsk Hl IH]; [discriminate|].
  cbn [array_map]. rewrite weightedSkill_run. unfold valid_level in Hsk.
  destruct (level_of (experience sk)); [|congruence].
  destruct (within_limit (segment_of sk)) as [w|e'] eqn:Hw.
  - destruct (array_map weightedSkill l) as [rest|e'']; [discriminate|].
    intros [= <-]. now apply IH.
  - intros [= <-]. now apply within_limit_Throw in Hw.
Qed.

Lemma weightedSkills_long (l : list skill) :
  Forall valid_level l -> ~ fits (toWeightedQuery (entries_of l)) ->
  weightedSkills l = Throw (RangeError "Invalid string length").
Proof.
  intros Hv Hf. destruct (weightedSkills l) as [w|e] eqn:Hw.
  - apply weightedSkills_Ok in Hw as [_ [-> Hfit]]. contradiction.
  - f_equal. revert Hw. unfold weightedSkills, Array_join.
    destruct (array_map weightedSkill l) as [segments|e'] eqn:Hm.
    + apply within_limit_Throw.
    + intros [= <-]. now apply (array_map_weightedSkill_long l).
Qed.

(** The entries ahead of the first level that Array refuses decide which
    error is thrown; with all of them in memory it is a RangeError of
    Array or of join. *)
Lemma weightedSkills_refused (l : list skill) :
  Exists (fun sk => ~ array_length (experience sk)) l ->
  exists msg, weightedSkills l = Throw (RangeError msg).
Proof.
  intro H. apply weightedSkills_invalid.
  eapply Exists_impl; [|exact H].
  intros sk Hsk Hv. apply Hsk. now apply valid_level_array_length.
Qed.

(** ** C1: setLevel and its missing validation *)

(** C1, refuted as stated: on a state that holds python at level 3,
    updateSkillExperience with "0" and with "6" returns normally and stores
    0 and 6; with the non-numeric "abc" a RangeError does reach the caller,
    yet NaN has been stored by then. *)
Lemma updateSkillExperience_accepts_0_and_6 :
  updateSkillExperience "python" "0" one_python_3 =
    (Ok tt, mkState [mkSkill "python" (Int 0)] "" "" true false true true) /\
  updateSkillExperience "python" "6" one_python_3 =
    (Ok tt, mkState [mkSkill "python" (Int 6)]
                    "python python python python python python" ""
                    true false true true) /\
  updateSkillExperience "python" "abc" one_python_3 =
    (Throw (RangeError "Invalid array length"),
     mkState [mkSkill "python" NaN] "python python python" ""
             true false true true).
Proof. repeat split. Qed.

Lemma joined_size_repeat (sep x : string) (k : nat) :
  joined_size sep (repeat x k) =
  (k * (String.length sep + String.length x))%nat.
Proof.
  unfold joined_size. induction k as [|k IH]; [reflexivity|].
  cbn [repeat map]. rewrite list_sum_cons, IH. lia.
Qed.

(** A level for which the names no longer fit in one string: the call
    throws the RangeError of join after the level has been stored, and
    the stored query stays as it was. *)
Example updateSkillExperience_string_limit :
  updateSkillExperience "python" "76695842" one_python_3 =
  (Throw (RangeError "Invalid string length"),
   mkState [mkSkill "python" (Int 76695842)] "python python python" ""
           true false true true).
Proof.
  assert (Hp : parseInt "76695842" = Int 76695842) by reflexivity.
  rewrite updateSkillExperience_run, Hp.
  change (find (has_name "python") (selectedSkills one_python_3))
    with (Some (mkSkill "python" (Int 3))).
  change (assign_experience "python" (Int 76695842)
            (selectedSkills one_python_3))
    with [mkSkill "python" (Int 76695842)].
  rewrite updateInterestsInput_run. cbn [selectedSkills set_selectedSkills].
  assert (Hl : level_of (Int 76695842) = Some (Z.to_nat 76695842)).
  { rewrite level_of_Int.
    destruct (Z.leb_spec 0 76695842); [|lia].
    destruct (Z.ltb_spec 76695842 (2 ^ 32)); [reflexivity | lia]. }
  rewrite weightedSkills_long; [reflexivity | |].
  - constructor; [|constructor]. unfold valid_level. cbn [experience].
    rewrite Hl. discriminate.
  - unfold fits. rewrite toWeightedQuery_segments.
    change (map segment_of [mkSkill "python" (Int 76695842)])
      with [segment_of (mkSkill "python" (Int 76695842))].
    change (String.concat ", " [segment_of (mkSkill "python" (Int 76695842))])
      with (segment_of (mkSkill "python" (Int 76695842))).
    unfold segment_of, repetitions. cbn [experience name]. rewrite Hl.
    rewrite concat_length, joined_size_repeat.
    change (String.length " ") with 1%nat.
    change (String.length "python") with 6%nat.
    unfold max_string_length. lia.
Qed.

(** C1, as amended: for every stored entry and every level value,
    updateSkillExperience applies no range check.  The level stored for the
    name becomes parseInt of the value, whatever that is; the names in the
    list, the entries of every other name and the error panel stay as they
    were; and when every level then stored is a length filled in memory
    and the weighted query of the list is no longer than a string can be,
    the call returns normally with the derived query recomputed. *)
Theorem updateSkillExperience_stores_parsed_level
  (s : state) (n v : string) :
  In n (map name (selectedSkills s)) ->
  let s' := snd (updateSkillExperience n v s) in
  find (has_name n) (selectedSkills s') = Some (mkSkill n (parseInt v)) /\
  map name (selectedSkills s') = map name (selectedSkills s) /\
  (forall m, m <> n ->
     entries_named m (selectedSkills s') = entries_named m (selectedSkills s)) /\
  (errorText s' = errorText s /\
   errorMessageHidden s' = errorMessageHidden s) /\
  (computable (selectedSkills s') ->
   fst (updateSkillExperience n v s) = Ok tt /\
   interests s' = toWeightedQuery (entries_of (selectedSkills s'))).
Proof.
  intros Hin s'.
  assert (Hsel : selectedSkills s' =
                 assign_experience n (parseInt v) (selectedSkills s)).
  { unfold s'. rewrite updateSkillExperience_selectedSkills.
    destruct (find (has_name n) (selectedSkills s)) eqn:Hf; [reflexivity|].
    apply find_has_name in Hf. contradiction. }
  assert (Hrun : updateSkillExperience n v s =
                 updateInterestsInput
                   (set_selectedSkills
                      (assign_experience n (parseInt v) (selectedSkills s)) s)).
  { rewrite updateSkillExperience_run.
    destruct (find (has_name n) (selectedSkills s)) eqn:Hf; [reflexivity|].
    apply find_has_name in Hf. contradiction. }
  repeat split.
  - rewrite Hsel. now apply find_assign_experience.
  - rewrite Hsel. apply assign_experience_names.
  - intros m Hm. rewrite Hsel. now apply assign_experience_others.
  - unfold s'. rewrite Hrun.
    apply (updateInterestsInput_panel (set_selectedSkills _ s)).
  - unfold s'. rewrite Hrun.
    apply (updateInterestsInput_panel (set_selectedSkills _ s)).
  - match goal with H : computable _ |- _ => rename H into Hc end.
    rewrite Hsel in Hc. rewrite Hrun, updateInterestsInput_run.
    cbn [selectedSkills set_selectedSkills].
    now rewrite (weightedSkills_computable _ Hc).
  - match goal with H : computable _ |- _ => rename H into Hc end.
    rewrite Hsel in Hc |- *. unfold s'.
    rewrite Hrun, updateInterestsInput_run.
    cbn [selectedSkills set_selectedSkills].
    now rewrite (weightedSkills_computable _ Hc).
Qed.

Lemma updateSkillExperience_stores_parsed_level_witness :
  In "python" (map name (selectedSkills one_python_3)) /\
  find (has_name "python")
       (selectedSkills (snd (updateSkillExperience "python" "6" one_python_3)))
  = Some (mkSkill "python" (Int 6)).
Proof.
  split.
  - simpl. left. reflexivity.
  - exact (proj1 (updateSkillExperience_stores_parsed_level
                    one_python_3 "python" "6" (or_introl eq_refl))).
Defined.

(** ** C2: the derived query *)

(** The query is no longer than two characters and level times the name
    and a space, summed over the entries: a bound to check that it fits. *)
Lemma toWeightedQuery_length (p : list SkillEntry) :
  (String.length (toWeightedQuery p) <=
   list_sum (map (fun e => 2 + snd e * (1 + String.length (fst e))) p))%nat.
Proof.
  unfold toWeightedQuery. rewrite concat_length. unfold joined_size.
  rewrite map_map.
  assert (H : (list_sum
                 (map (fun e => String.length ", " +
                                String.length
                                  (String.concat " " (repeat (fst e) (snd e))))
                      p) <=
               list_sum
                 (map (fun e => 2 + snd e * (1 + String.length (fst e))) p))%nat).
  { induction p as [|[n k] p IH]; [reflexivity|].
    cbn [map fst snd]. rewrite !list_sum_cons.
    assert (Hseg : (String.length (String.concat " " (repeat n k)) <=
                    k * (1 + String.length n))%nat).
    { rewrite concat_length. unfold joined_size.
      assert (Hr : list_sum (map (fun x => String.length " " +
                                           String.length x) (repeat n k))%nat =
                   (k * (1 + String.length n))%nat).
      { induction k as [|k IHk]; [reflexivity|].
        cbn [repeat map]. rewrite list_sum_cons, IHk. cbn [String.length]. lia. }
      rewrite Hr. lia. }
    cbn [String.length] in *. lia. }
  lia.
Qed.

(** C2: for every preference set whose levels are lengths filled in memory
    (so any level in [1,5]) and whose query is a string the engine can
    hold, updateInterestsInput on the state that holds it returns normally
    and stores, as the derived query, the names repeated level times
    joined by single spaces, the segments joined by comma and space, in
    the order of the list. *)
Theorem updateInterestsInput_weighted_query
  (p : list SkillEntry) (s : state) :
  Forall (fun e => Z.of_nat (snd e) <= max_filled_length) p ->
  fits (toWeightedQuery p) ->
  selectedSkills s = stored p ->
  updateInterestsInput s = (Ok tt, set_interests (toWeightedQuery p) s).
Proof.
  intros Hp Hf Hs.
  assert (Hp' : Forall (fun e => Z.of_nat (snd e) < 2 ^ 32) p).
  { eapply Forall_impl; [|exact Hp]. intros e He.
    unfold max_filled_length in He. cbn beta in *. lia. }
  destruct (entries_of_stored p Hp') as [Hv He].
  rewrite updateInterestsInput_run, Hs.
  rewrite weightedSkills_valid; [now rewrite He | exact Hv | now rewrite He].
Qed.

Lemma updateInterestsInput_weighted_query_witness :
  interests (snd (updateInterestsInput (two_entries [("a", 2); ("b", 1)]%nat)))
  = "a a, b" /\
  interests
    (snd (updateInterestsInput
            (two_entries [("python", 4); ("machine learning", 3)]%nat)))
  = "python python python python, machine learning machine learning machine learning".
Proof.
  split.
  - rewrite (updateInterestsInput_weighted_query
               [("a", 2); ("b", 1)]%nat (two_entries [("a", 2); ("b", 1)]%nat)).
    + reflexivity.
    + repeat constructor; discriminate.
    + discriminate.
    + reflexivity.
  - rewrite (updateInterestsInput_weighted_query
               [("python", 4); ("machine learning", 3)]%nat
               (two_entries [("python", 4); ("machine learning", 3)]%nat)).
    + reflexivity.
    + repeat constructor; discriminate.
    + discriminate.
    + reflexivity.
Defined.

(** The end-to-end scenario through the handlers: python at 4, then
    machine learning at 3, from the page as loaded. *)
Example add_python_then_machine_learning :
  (addSkillBtn_click "python" "4" ;; addSkillBtn_click "machine learning" "3")
    page_load =
  (Ok tt,
   mkState [mkSkill "python" (Int 4); mkSkill "machine learning" (Int 3)]
     "python python python python, machine learning machine learning machine learning"
     "" true false true true).
Proof. reflexivity. Qed.

(** ** C3: reset *)

Lemma resetBtn_click_run (f : string -> string) (s : state) :
  resetBtn_click f s =
  (Ok tt,
   mkState [] (f (interests s)) (errorText s) (errorMessageHidden s)
           false true (loadingHidden s)).
Proof. reflexivity. Qed.

Lemma weightedSkills_nil : weightedSkills [] = Ok "".
Proof. reflexivity. Qed.

(** C3: the reset handler empties the list but, unlike addSkill,
    removeSkill and updateSkillExperience, does not call
    updateInterestsInput.  With python at level 4 selected, the reset
    click leaves the stored query at its four pythons when the control is
    a hidden input; removing the entry instead, or calling
    updateInterestsInput after the reset, does bring it to the empty
    string. *)
Theorem resetBtn_click_keeps_stored_query :
  let s := snd (addSkillBtn_click "python" "4" page_load) in
  interests s = "python python python python" /\
  resetBtn_click hidden_input_reset s =
    (Ok tt, mkState [] "python python python python" "" true false true true) /\
  removeSkill "python" s =
    (Ok tt, mkState [] "" "" true false true true) /\
  (resetBtn_click hidden_input_reset ;; updateInterestsInput) s =
    (Ok tt, mkState [] "" "" true false true true).
Proof. repeat split. Qed.

(** ** C4: add *)

Lemma filter_has_name_nil (n : string) (l : list skill) :
  ~ In n (map name l) -> filter (has_name n) l = [].
Proof.
  induction l as [|sk l IH]; [reflexivity|].
  cbn [map In filter]. intro H.
  destruct (has_name n sk) eqn:Hb.
  - apply has_name_true in Hb. exfalso. apply H. now left.
  - apply IH. intro Hin. apply H. now right.
Qed.

(** C4: the add button does nothing, and raises nothing, when the chosen
    name is the empty string and when an entry with that name is already
    in the list; otherwise the list gains one entry for the name, with
    the parsed level, at its end. *)
Theorem addSkillBtn_click_cases (s : state) (n v : string) :
  (n = "" -> addSkillBtn_click n v s = (Ok tt, s)) /\
  (In n (map name (selectedSkills s)) ->
   addSkillBtn_click n v s = (Ok tt, s)) /\
  (n <> "" -> ~ In n (map name (selectedSkills s)) ->
   selectedSkills (snd (addSkillBtn_click n v s)) =
   (selectedSkills s ++ [mkSkill n (parseInt v)])%list).
Proof.
  rewrite addSkillBtn_click_run. repeat split.
  - intros ->. reflexivity.
  - intro Hin. destruct (n =? "")%string; [reflexivity|].
    rewrite addSkill_run. apply some_has_name in Hin. now rewrite Hin.
  - intros Hn Hin. apply String.eqb_neq in Hn. rewrite Hn.
    rewrite addSkill_selectedSkills. apply none_has_name in Hin.
    now rewrite Hin.
Qed.

Lemma addSkillBtn_click_cases_witness :
  addSkillBtn_click "" "4" one_python_3 = (Ok tt, one_python_3) /\
  addSkillBtn_click "python" "5" one_python_3 = (Ok tt, one_python_3) /\
  selectedSkills (snd (addSkillBtn_click "sql" "2" one_python_3)) =
  [mkSkill "python" (Int 3); mkSkill "sql" (Int 2)].
Proof.
  pose proof (addSkillBtn_click_cases one_python_3 "" "4") as [H1 _].
  pose proof (addSkillBtn_click_cases one_python_3 "python" "5") as [_ [H2 _]].
  pose proof (addSkillBtn_click_cases one_python_3 "sql" "2") as [_ [_ H3]].
  split; [exact (H1 eq_refl)|].
  split; [exact (H2 (or_introl eq_refl))|].
  apply H3.
  - discriminate.
  - simpl. intros [H|[]]. discriminate.
Defined.

(** ** C5: adding twice *)

(** C5: for every name that has no entry yet and all levels, after
    addSkill with the first level the list holds exactly one entry for the
    name, with that level; addSkill again with any level returns normally
    and changes nothing, so that one entry and its level remain. *)
Theorem addSkill_twice (s : state) (n : string) (L1 L2 : option number) :
  ~ In n (map name (selectedSkills s)) ->
  let s1 := snd (addSkill n L1 s) in
  addSkill n L2 s1 = (Ok tt, s1) /\
  entries_named n (selectedSkills (snd (addSkill n L2 s1))) =
  [mkSkill n (default_3 L1)].
Proof.
  intros Hin s1.
  assert (Hs1 : selectedSkills s1 =
                (selectedSkills s ++ [mkSkill n (default_3 L1)])%list).
  { unfold s1. rewrite addSkill_selectedSkills.
    apply none_has_name in Hin. now rewrite Hin. }
  assert (Hex : existsb (has_name n) (selectedSkills s1) = true).
  { apply some_has_name. rewrite Hs1, map_app. apply in_or_app.
    right. now left. }
  assert (Hrun : addSkill n L2 s1 = (Ok tt, s1))
    by (rewrite addSkill_run; now rewrite Hex).
  split; [exact Hrun|].
  rewrite Hrun. cbn [snd]. rewrite Hs1. unfold entries_named.
  rewrite filter_app, filter_has_name_nil by exact Hin.
  cbn [filter app]. unfold has_name at 1. cbn [name].
  now rewrite String.eqb_refl.
Qed.

Lemma addSkill_twice_witness :
  ~ In "sql" (map name (selectedSkills one_python_3)) /\
  entries_named "sql"
    (selectedSkills
       (snd (addSkill "sql" (Some (Int 5))
               (snd (addSkill "sql" (Some (Int 2)) one_python_3))))) =
  [mkSkill "sql" (Int 2)].
Proof.
  assert (H : ~ In "sql" (map name (selectedSkills one_python_3))).
  { simpl. intros [H|[]]. discriminate. }
  split; [exact H|].
  exact (proj2 (addSkill_twice one_python_3 "sql"
                  (Some (Int 2)) (Some (Int 5)) H)).
Defined.

(** ** C6: remove, then add *)

Lemma filter_others_named (n : string) (l : list skill) :
  filter (has_name n) (filter (fun sk => negb (has_name n sk)) l) = [].
Proof.
  induction l as [|sk l IH]; [reflexivity|].
  cbn [filter]. destruct (has_name n sk) eqn:Hb; cbn [negb filter];
    [exact IH | now rewrite Hb].
Qed.

(** C6: removeSkill of a name followed by addSkill of that name at a level
    leaves the other entries in their order, followed by one entry for the
    name with the new level: the only entry for the name, and the last of
    the list, wherever the name stood before. *)
Theorem removeSkill_then_addSkill (s : state) (n : string) (L : option number) :
  let s2 := snd (addSkill n L (snd (removeSkill n s))) in
  selectedSkills s2 =
    (filter (fun sk => negb (has_name n sk)) (selectedSkills s)
     ++ [mkSkill n (default_3 L)])%list /\
  entries_named n (selectedSkills s2) = [mkSkill n (default_3 L)] /\
  last (selectedSkills s2) (mkSkill "" NaN) = mkSkill n (default_3 L).
Proof.
  intro s2.
  assert (Hs2 : selectedSkills s2 =
    (filter (fun sk => negb (has_name n sk)) (selectedSkills s)
     ++ [mkSkill n (default_3 L)])%list).
  { unfold s2. rewrite addSkill_selectedSkills, removeSkill_selectedSkills.
    destruct (existsb (has_name n)
                (filter (fun sk => negb (has_name n sk)) (selectedSkills s)))
      eqn:Hex; [|reflexivity].
    exfalso. apply existsb_exists in Hex. destruct Hex as [sk [Hin Hb]].
    assert (Hf : In sk (filter (has_name n)
                   (filter (fun sk => negb (has_name n sk)) (selectedSkills s))))
      by (apply filter_In; now split).
    now rewrite filter_others_named in Hf. }
  rewrite Hs2. repeat split.
  - unfold entries_named. rewrite filter_app, filter_others_named.
    cbn [filter app]. unfold has_name at 1. cbn [name].
    now rewrite String.eqb_refl.
  - apply last_last.
Qed.

(** ** C7: the empty set blocks submission *)

(** C7: when no skill is selected the weighted string computed from the
    list is the empty string, which is what updateInterestsInput stores,
    and the submit handler returns without a request, having shown the
    error whose text asks to add at least one skill. *)
Theorem form_submit_empty_set (s : state) (k model_type : option string) :
  selectedSkills s = [] ->
  weightedSkills (selectedSkills s) = Ok "" /\
  updateInterestsInput s = (Ok tt, set_interests "" s) /\
  form_submit k model_type s =
    (Ok Blocked,
     mkState [] (interests s)
             "Please add at least one skill with experience level"
             false true true (loadingHidden s)) /\
  "Please add at least one skill with experience level" =
    "Please " ++ "add at least one skill" ++ " with experience level".
Proof.
  destruct s as [l q t eh ih rh lh]. cbn [selectedSkills interests loadingHidden].
  intros ->. repeat split.
  unfold form_submit, bind, get, showError, modify, ret.
  cbn [selectedSkills interests loadingHidden].
  destruct (trim q =? "")%string; reflexivity.
Qed.

Lemma form_submit_empty_set_witness :
  selectedSkills page_load = [] /\
  form_submit (Some "5") None page_load =
    (Ok Blocked,
     mkState [] "" "Please add at least one skill with experience level"
             false true true true).
Proof.
  split; [reflexivity|].
  exact (proj1 (proj2 (proj2 (form_submit_empty_set page_load (Some "5") None
                                eq_refl)))).
Defined.

(** ** C8: one entry per name *)

Lemma unique_names_snoc (l : list skill) (sk : skill) :
  unique_names l -> ~ In (name sk) (map name l) -> unique_names (l ++ [sk]).
Proof.
  unfold unique_names. rewrite map_app. cbn [map].
  induction (map name l) as [|m ms IH]; intros Hnd Hin.
  - cbn [app]. constructor; [intros [] | constructor].
  - cbn [app]. inversion Hnd as [|? ? Hm Hms]; subst. constructor.
    + intro Hc. apply in_app_or in Hc. destruct Hc as [Hc | [Hc | []]].
      * contradiction.
      * apply Hin. left. now symmetry.
    + apply IH; [exact Hms|]. intro Hc. apply Hin. now right.
Qed.

Lemma unique_names_filter (f : skill -> bool) (l : list skill) :
  unique_names l -> unique_names (filter f l).
Proof.
  unfold unique_names. induction l as [|sk l IH]; intro Hnd; [exact Hnd|].
  cbn [map] in Hnd. inversion Hnd as [|? ? Hsk Hl]; subst.
  cbn [filter]. destruct (f sk); [|now apply IH].
  cbn [map]. constructor; [|now apply IH].
  intro Hc. apply Hsk. apply in_map_iff in Hc.
  destruct Hc as [x [Hx Hin]]. apply filter_In in Hin.
  apply in_map_iff. exists x. tauto.
Qed.

Lemma addSkill_unique (n : string) (L : option number) (s : state) :
  unique_names (selectedSkills s) ->
  unique_names (selectedSkills (snd (addSkill n L s))).
Proof.
  intro Hu. rewrite addSkill_selectedSkills.
  destruct (existsb (has_name n) (selectedSkills s)) eqn:Hex; [exact Hu|].
  apply unique_names_snoc; [exact Hu|]. now apply none_has_name.
Qed.

Lemma addSkillBtn_click_unique (n v : string) (s : state) :
  unique_names (selectedSkills s) ->
  unique_names (selectedSkills (snd (addSkillBtn_click n v s))).
Proof.
  intro Hu. rewrite addSkillBtn_click_run.
  destruct (n =? "")%string; [exact Hu | now apply addSkill_unique].
Qed.

Lemma removeSkill_unique (n : string) (s : state) :
  unique_names (selectedSkills s) ->
  unique_names (selectedSkills (snd (removeSkill n s))).
Proof.
  intro Hu. rewrite removeSkill_selectedSkills.
  now apply unique_names_filter.
Qed.

Lemma updateSkillExperience_unique (n v : string) (s : state) :
  unique_names (selectedSkills s) ->
  unique_names (selectedSkills (snd (updateSkillExperience n v s))).
Proof.
  intro Hu. rewrite updateSkillExperience_selectedSkills.
  destruct (find (has_name n) (selectedSkills s)); [|exact Hu].
  unfold unique_names. now rewrite assign_experience_names.
Qed.

Lemma form_submit_selectedSkills (k m : option string) (s : state) :
  selectedSkills (snd (form_submit k m s)) = selectedSkills s.
Proof.
  unfold form_submit, bind, get, showError, modify, ret.
  destruct (trim (interests s) =? "")%string; [reflexivity|].
  destruct (List.length (selectedSkills s) =? 0)%nat; reflexivity.
Qed.

Lemma forEach_preserves {A} (P : state -> Prop) (f : A -> M unit)
  (a : list A) :
  (forall x s, P s -> P (snd (f x s))) ->
  forall s, P s -> P (snd (forEach f a s)).
Proof.
  intro Hf. induction a as [|x rest IH]; intros s Hs; [exact Hs|].
  cbn [forEach]. unfold bind. specialize (Hf x s Hs).
  destruct (f x s) as [[[]|e] s']; cbn [snd] in *; [now apply IH | exact Hf].
Qed.

Lemma fillTestCase_unique (t : string) (s : state) :
  unique_names (selectedSkills s) ->
  unique_names (selectedSkills (snd (fillTestCase t s))).
Proof.
  intro Hu. unfold fillTestCase.
  destruct (testCases_get t) as [skills| |]; [| constructor | exact Hu].
  unfold bind, modify.
  apply (forEach_preserves (fun s => unique_names (selectedSkills s))).
  - intros x s0. apply addSkill_unique.
  - constructor.
Qed.

Lemma step_unique (f : string -> string) (e : event) (s : state) :
  unique_names (selectedSkills s) ->
  unique_names (selectedSkills (step f e s)).
Proof.
  intro Hu. destruct e; cbn [step].
  - now apply addSkillBtn_click_unique.
  - now apply addSkill_unique.
  - now apply removeSkill_unique.
  - now apply updateSkillExperience_unique.
  - constructor.
  - now rewrite form_submit_selectedSkills.
  - now apply fillTestCase_unique.
  - exact Hu.
Qed.

(** C8: every state reachable from the page as loaded, by any sequence of
    handler runs and whether or not they threw, holds at most one entry
    per name; and add, remove, setLevel and clear each keep that property
    from any state that has it. *)
Theorem reachable_unique_names (f : string -> string) :
  (forall s, reachable f s -> unique_names (selectedSkills s)) /\
  (forall s, unique_names (selectedSkills s) ->
     (forall n L, unique_names (selectedSkills (snd (addSkill n L s)))) /\
     (forall n v, unique_names (selectedSkills (snd (addSkillBtn_click n v s)))) /\
     (forall n, unique_names (selectedSkills (snd (removeSkill n s)))) /\
     (forall n v,
        unique_names (selectedSkills (snd (updateSkillExperience n v s)))) /\
     unique_names (selectedSkills (snd (resetBtn_click f s)))).
Proof.
  split.
  - intros s Hr. induction Hr as [s He | e s Hr IH].
    + rewrite He. constructor.
    + now apply step_unique.
  - intros s Hu. repeat split; intros.
    + now apply addSkill_unique.
    + now apply addSkillBtn_click_unique.
    + now apply removeSkill_unique.
    + now apply updateSkillExperience_unique.
    + constructor.
Qed.

Lemma reachable_unique_names_witness :
  reachable hidden_input_reset
    (step hidden_input_reset (UpdateSkillExperienceCall "python" "5")
       (step hidden_input_reset (AddSkillBtnClick "python" "4") page_load)) /\
  unique_names [mkSkill "python" (Int 5)].
Proof.
  assert (H : reachable hidden_input_reset
    (step hidden_input_reset (UpdateSkillExperienceCall "python" "5")
       (step hidden_input_reset (AddSkillBtnClick "python" "4") page_load))).
  { do 2 apply reachable_step. now apply reachable_load. }
  split; [exact H|].
  exact (proj1 (reachable_unique_names hidden_input_reset) _ H).
Defined.

(** ** C9: remove *)

Lemma filter_idempotent {A} (f : A -> bool) (l : list A) :
  filter f (filter f l) = filter f l.
Proof.
  induction l as [|x l IH]; [reflexivity|].
  cbn [filter]. destruct (f x) eqn:Hx; [|exact IH].
  cbn [filter]. now rewrite Hx, IH.
Qed.

Lemma filter_others_id (n : string) (l : list skill) :
  ~ In n (map name l) -> filter (fun sk => negb (has_name n sk)) l = l.
Proof.
  induction l as [|sk l IH]; [reflexivity|].
  cbn [map In filter]. intro H.
  destruct (has_name n sk) eqn:Hb.
  - apply has_name_true in Hb. exfalso. apply H. now left.
  - cbn [negb]. rewrite IH; [reflexivity|]. intro Hin. apply H. now right.
Qed.

(** C9: after removeSkill of a name no entry has that name, and the
    entries of other names are the same entries, with the same levels, in
    the same order as before; when no entry has the name the list is
    unchanged, and so is the whole state if the stored query was in step
    with the list. *)
Theorem removeSkill_frame (s : state) (n : string) :
  let s' := snd (removeSkill n s) in
  entries_named n (selectedSkills s') = [] /\
  filter (fun sk => negb (has_name n sk)) (selectedSkills s') =
    filter (fun sk => negb (has_name n sk)) (selectedSkills s) /\
  (~ In n (map name (selectedSkills s)) ->
   selectedSkills s' = selectedSkills s /\
   ((forall w, weightedSkills (selectedSkills s) = Ok w -> interests s = w) ->
    s' = s)).
Proof.
  intro s'. unfold s'. rewrite removeSkill_selectedSkills. repeat split.
  - apply filter_others_named.
  - apply filter_idempotent.
  - now apply filter_others_id.
  - intro Hsync. rewrite removeSkill_run, updateInterestsInput_run.
    cbn [selectedSkills set_selectedSkills].
    rewrite filter_others_id by assumption.
    destruct s as [l q t eh ih rh lh]. cbn [selectedSkills interests] in *.
    destruct (weightedSkills l) as [w|e] eqn:Hw; [|reflexivity].
    cbn [snd]. unfold set_interests, set_selectedSkills.
    cbn [selectedSkills interests errorText errorMessageHidden
         inputSectionHidden resultsSectionHidden loadingHidden].
    now rewrite (Hsync w eq_refl).
Qed.

Lemma removeSkill_frame_witness :
  ~ In "sql" (map name (selectedSkills one_python_3)) /\
  snd (removeSkill "sql" one_python_3) = one_python_3.
Proof.
  assert (H : ~ In "sql" (map name (selectedSkills one_python_3))).
  { simpl. intros [H|[]]. discriminate. }
  split; [exact H|].
  apply (proj2 (proj2 (removeSkill_frame one_python_3 "sql")) H).
  intros w Hw. simpl. injection Hw as <-. reflexivity.
Defined.

(** ** C10: when the derived query can be computed *)

(** C10, refuted as stated: 2^32 is a non-negative integer, and a list
    that holds it as a level makes updateInterestsInput throw. *)
Lemma updateInterestsInput_throws_at_2_32 :
  selectedSkills one_python_2_32 = [mkSkill "python" (Int (2 ^ 32))] /\
  0 <= 2 ^ 32 /\
  updateInterestsInput one_python_2_32 =
    (Throw (RangeError "Invalid array length"), one_python_2_32).
Proof. repeat split. discriminate. Qed.

Lemma array_map_weightedSkill_refused (l : list skill) :
  Forall (fun sk => fits (segment_of sk)) (filter counts l) ->
  Exists (fun sk => ~ valid_level sk) l ->
  array_map weightedSkill l = Throw (RangeError "Invalid array length").
Proof.
  intros Hf Hex. induction Hex as [sk l Hsk | sk l Hex IH];
    cbn [array_map]; rewrite weightedSkill_run.
  - unfold valid_level in Hsk.
    destruct (level_of (experience sk)); [|reflexivity].
    exfalso. apply Hsk. discriminate.
  - cbn [filter] in Hf. unfold counts at 1 in Hf.
    destruct (level_of (experience sk)); [|reflexivity].
    inversion Hf as [|? ? Hs Hf']; subst.
    now rewrite (within_limit_fits _ Hs), (IH Hf').
Qed.

(** C10, as amended: updateInterestsInput returns normally, with the
    query stored, when every level of the list is an integer from 0 up to
    a length that is filled in memory (so for any level in [1,5]) and the
    query is a string the engine can hold.  When some level is not an
    array length, the entries of the other levels being such a list, it
    throws the RangeError of Array and leaves the state as it was.
    Negative integers, integers from 2^32 on, NaN, the infinities and
    numbers that are no integer are not array lengths. *)
Theorem updateInterestsInput_returns_iff (s : state) :
  (computable (selectedSkills s) ->
   updateInterestsInput s =
     (Ok tt, set_interests (toWeightedQuery (entries_of (selectedSkills s))) s))
  /\
  (computable (filter counts (selectedSkills s)) ->
   Exists (fun sk => ~ array_length (experience sk)) (selectedSkills s) ->
   updateInterestsInput s = (Throw (RangeError "Invalid array length"), s))
  /\
  (forall z, array_length (Int z) <-> 0 <= z < 2 ^ 32) /\
  ~ array_length NaN /\
  (forall b, ~ array_length (Infinity b)) /\
  (forall q, (forall z, ~ Qeq q (inject_Z z)) -> ~ array_length (Finite q)).
Proof.
  rewrite updateInterestsInput_run.
  split; [|split; [|split; [|split; [|split]]]].
  - intro Hc. now rewrite (weightedSkills_computable _ Hc).
  - intros [_ Hf] Hex. unfold weightedSkills.
    rewrite array_map_weightedSkill_refused; [reflexivity | |].
    + now apply segments_fit.
    + eapply Exists_impl; [|exact Hex].
      intros sk Hsk Hv. apply Hsk. now apply valid_level_array_length.
  - intro z. apply array_length_Int.
  - intros [z [_ []]].
  - intros b [z [_ []]].
  - intros q Hq [z [_ Hz]]. exact (Hq z Hz).
Qed.

Lemma updateInterestsInput_returns_iff_witness :
  computable (selectedSkills one_python_3) /\
  updateInterestsInput one_python_3 = (Ok tt, one_python_3) /\
  Exists (fun sk => ~ array_length (experience sk))
         (selectedSkills (set_selectedSkills
                            [mkSkill "python" (Finite (5 # 2))] one_python_3)) /\
  updateInterestsInput
    (set_selectedSkills [mkSkill "python" (Finite (5 # 2))] one_python_3) =
  (Throw (RangeError "Invalid array length"),
   set_selectedSkills [mkSkill "python" (Finite (5 # 2))] one_python_3).
Proof.
  assert (H1 : computable (selectedSkills one_python_3)).
  { split; [|discriminate].
    constructor; [|constructor]. apply level_in_memory_Int.
    split; discriminate. }
  assert (H2 : Exists (fun sk => ~ array_length (experience sk))
         (selectedSkills (set_selectedSkills
                            [mkSkill "python" (Finite (5 # 2))] one_python_3))).
  { constructor. intros [z [_ Hz]]. cbn in Hz. unfold Qeq in Hz.
    cbn in Hz. lia. }
  split; [exact H1|]. split.
  - exact (proj1 (updateInterestsInput_returns_iff one_python_3) H1).
  - split; [exact H2|].
    refine (proj1 (proj2 (updateInterestsInput_returns_iff _)) _ H2).
    split; [constructor | discriminate].
Defined.

(** * Further properties of the handlers *)

(** ** The stored query stays in step with the list *)









Lemma array_lengths_valid (l : list skill) :
  Forall (fun sk => array_length (experience sk)) l -> Forall valid_level l.
Proof.
  intro H. eapply Forall_impl; [|exact H].
  intros sk Hsk. now apply valid_level_array_length.
Qed.




(** ** What a submission carries *)




(** X3: whatever form.reset() does to the hidden control, a submission
    right after the reset button is blocked with the add-a-skill error and
    builds no request, so a query left over from before the reset is not
    sent. *)
Theorem form_submit_after_reset
  (f : string -> string) (s : state) (k m : option string) :
  form_submit k m (snd (resetBtn_click f s)) =
  (Ok Blocked,
   mkState [] (f (interests s))
           "Please add at least one skill with experience level"
           false true true (loadingHidden s)).
Proof.
  rewrite resetBtn_click_run. cbn [snd].
  unfold form_submit, bind, get, showError, modify, ret.
  cbn [selectedSkills interests loadingHidden].
  destruct (trim (f (interests s)) =? "")%string; reflexivity.
Qed.

(** ** Composing the handlers of the list *)

Lemma same_state (s s' : state) :
  selectedSkills s' = selectedSkills s -> interests s' = interests s ->
  panel s' = panel s -> s' = s.
Proof.
  destruct s, s'. unfold panel. cbn. intros -> -> H.
  injection H as -> -> -> -> ->. reflexivity.
Qed.

Lemma updateInterestsInput_keeps_panel (s : state) :
  panel (snd (updateInterestsInput s)) = panel s.
Proof.
  rewrite updateInterestsInput_run.
  destruct (weightedSkills (selectedSkills s)); reflexivity.
Qed.

Lemma addSkill_keeps_panel (n : string) (L : option number) (s : state) :
  panel (snd (addSkill n L s)) = panel s.
Proof.
  rewrite addSkill_run.
  destruct (existsb (has_name n) (selectedSkills s)); [reflexivity|].
  now rewrite updateInterestsInput_keeps_panel.
Qed.

Lemma removeSkill_keeps_panel (n : string) (s : state) :
  panel (snd (removeSkill n s)) = panel s.
Proof. rewrite removeSkill_run. now rewrite updateInterestsInput_keeps_panel. Qed.

Lemma weightedSkills_Ok_valid (l : list skill) (w : string) :
  weightedSkills l = Ok w -> Forall valid_level l.
Proof. intro Hw. now apply weightedSkills_Ok in Hw. Qed.

(** What is left of a list after a filter has a query no longer than that
    of the list, so it is computed whenever that of the list is. *)
Lemma weightedSkills_filter (f : skill -> bool) (l : list skill) (w : string) :
  weightedSkills l = Ok w ->
  weightedSkills (filter f l) = Ok (toWeightedQuery (entries_of (filter f l))).
Proof.
  intro Hw. apply weightedSkills_Ok in Hw as [Hv [-> Hf]].
  apply weightedSkills_valid.
  - rewrite Forall_forall in *. intros sk Hin. apply Hv.
    now apply filter_In in Hin.
  - unfold fits in *. rewrite toWeightedQuery_segments in *.
    rewrite concat_length in *.
    pose proof (joined_size_filter ", " segment_of f l). lia.
Qed.

Lemma removeSkill_interests (n : string) (s : state) :
  interests (snd (removeSkill n s)) =
  match weightedSkills
          (filter (fun sk => negb (has_name n sk)) (selectedSkills s)) with
  | Ok w => w
  | Throw _ => interests s
  end.
Proof.
  rewrite removeSkill_run, updateInterestsInput_run.
  cbn [selectedSkills set_selectedSkills].
  destruct (weightedSkills _); reflexivity.
Qed.

Lemma removeSkill_result (n : string) (s : state) :
  fst (removeSkill n s) =
  match weightedSkills
          (filter (fun sk => negb (has_name n sk)) (selectedSkills s)) with
  | Ok _ => Ok tt
  | Throw e => Throw e
  end.
Proof.
  rewrite removeSkill_run, updateInterestsInput_run.
  cbn [selectedSkills set_selectedSkills].
  destruct (weightedSkills _); reflexivity.
Qed.

Lemma filter_swap {A} (f g : A -> bool) (l : list A) :
  filter f (filter g l) = filter g (filter f l).
Proof.
  induction l as [|x l IH]; [reflexivity|].
  cbn [filter]. destruct (g x) eqn:Hg, (f x) eqn:Hf; cbn [filter];
    rewrite ?Hg, ?Hf, IH; reflexivity.
Qed.

Lemma pair_eq {A B} (p q : A * B) : fst p = fst q -> snd p = snd q -> p = q.
Proof. destruct p, q. cbn. now intros -> ->. Qed.

(** The stored query after two removals in a row: recomputed if the final
    list allows it, else what it was before both. *)
Lemma removeSkill_twice_interests (a b : string) (s : state) :
  interests (snd (removeSkill a (snd (removeSkill b s)))) =
  match weightedSkills
          (filter (fun sk => negb (has_name a sk))
             (filter (fun sk => negb (has_name b sk)) (selectedSkills s))) with
  | Ok w => w
  | Throw _ => interests s
  end.
Proof.
  rewrite removeSkill_interests, removeSkill_selectedSkills.
  destruct (weightedSkills
              (filter (fun sk => negb (has_name a sk))
                 (filter (fun sk => negb (has_name b sk)) (selectedSkills s))))
    as [w|e] eqn:Hw; [reflexivity|].
  rewrite removeSkill_interests.
  destruct (weightedSkills
              (filter (fun sk => negb (has_name b sk)) (selectedSkills s)))
    as [w'|e'] eqn:Hw'; [|reflexivity].
  rewrite (weightedSkills_filter _ _ _ Hw') in Hw. discriminate.
Qed.

(** X4: two removals give the same outcome and the same state in either
    order, and removing a name a second time changes nothing more: the
    second call returns as the first did and leaves the state of the
    first. *)
Theorem removeSkill_commutes (s : state) (a b : string) :
  removeSkill a (snd (removeSkill b s)) =
  removeSkill b (snd (removeSkill a s)) /\
  removeSkill a (snd (removeSkill a s)) = removeSkill a s.
Proof.
  split.
  - apply pair_eq.
    + rewrite !removeSkill_result, !removeSkill_selectedSkills.
      now rewrite filter_swap.
    + apply same_state.
      * rewrite !removeSkill_selectedSkills. apply filter_swap.
      * rewrite !removeSkill_twice_interests. now rewrite filter_swap.
      * now rewrite !removeSkill_keeps_panel.
  - apply pair_eq.
    + rewrite !removeSkill_result, !removeSkill_selectedSkills.
      now rewrite filter_idempotent.
    + apply same_state.
      * rewrite !removeSkill_selectedSkills. apply filter_idempotent.
      * rewrite removeSkill_twice_interests, removeSkill_interests.
        rewrite filter_idempotent.
        destruct (weightedSkills _); reflexivity.
      * now rewrite !removeSkill_keeps_panel.
Qed.

Lemma filter_others_snoc (n : string) (v : number) (l : list skill) :
  ~ In n (map name l) ->
  filter (fun sk => negb (has_name n sk)) (l ++ [mkSkill n v]) = l.
Proof.
  intro Hin. rewrite filter_app, filter_others_id by exact Hin.
  cbn [filter]. unfold has_name at 1. cbn [name].
  rewrite String.eqb_refl. cbn [negb]. apply app_nil_r.
Qed.

(** X5: adding a name that has no entry and then removing it gives back
    the list as it was; and the whole state, stored query included, when
    the stored query was the weighted string of the list, even if the
    addition threw on a level that Array refuses. *)
Theorem addSkill_then_removeSkill (s : state) (n : string) (L : option number) :
  ~ In n (map name (selectedSkills s)) ->
  selectedSkills (snd (removeSkill n (snd (addSkill n L s)))) =
    selectedSkills s /\
  (weightedSkills (selectedSkills s) = Ok (interests s) ->
   snd (removeSkill n (snd (addSkill n L s))) = s).
Proof.
  intro Hin.
  assert (Hl : selectedSkills (snd (removeSkill n (snd (addSkill n L s)))) =
               selectedSkills s).
  { rewrite removeSkill_selectedSkills, addSkill_selectedSkills.
    apply none_has_name in Hin as Hex. rewrite Hex.
    now apply filter_others_snoc. }
  split; [exact Hl|]. intro Hsync.
  apply same_state; [exact Hl | | ].
  - rewrite removeSkill_interests, addSkill_selectedSkills.
    apply none_has_name in Hin as Hex. rewrite Hex.
    rewrite filter_others_snoc by exact Hin. now rewrite Hsync.
  - now rewrite removeSkill_keeps_panel, addSkill_keeps_panel.
Qed.

Lemma addSkill_then_removeSkill_witness :
  ~ In "sql" (map name (selectedSkills one_python_3)) /\
  snd (removeSkill "sql" (snd (addSkill "sql" (Some NaN) one_python_3))) =
  one_python_3.
Proof.
  assert (H : ~ In "sql" (map name (selectedSkills one_python_3))).
  { simpl. intros [H|[]]. discriminate. }
  split; [exact H|].
  exact (proj2 (addSkill_then_removeSkill one_python_3 "sql" (Some NaN) H)
               eq_refl).
Defined.

Lemma assign_experience_twice (n : string) (v1 v2 : number) (l : list skill) :
  assign_experience n v2 (assign_experience n v1 l) = assign_experience n v2 l.
Proof.
  induction l as [|sk l IH]; [reflexivity|].
  cbn [assign_experience]. destruct (has_name n sk) eqn:Hb;
    cbn [assign_experience].
  - change (has_name n (mkSkill (name sk) v1)) with (has_name n sk).
    now rewrite Hb.
  - now rewrite Hb, IH.
Qed.

Lemma find_assign_experience_some (n : string) (v : number) (l : list skill) :
  find (has_name n) (assign_experience n v l) = None <->
  find (has_name n) l = None.
Proof.
  rewrite !find_has_name. now rewrite assign_experience_names.
Qed.

(** X6: a later updateSkillExperience overwrites an earlier one for the
    same name: the list after both is the list after the later alone; and
    for a name with no entry the call returns normally and leaves the
    whole state as it was, whatever the value. *)
Theorem updateSkillExperience_overwrites (s : state) (n v1 v2 : string) :
  selectedSkills
    (snd (updateSkillExperience n v2 (snd (updateSkillExperience n v1 s)))) =
  selectedSkills (snd (updateSkillExperience n v2 s)) /\
  (~ In n (map name (selectedSkills s)) ->
   updateSkillExperience n v1 s = (Ok tt, s)).
Proof.
  split.
  - rewrite !updateSkillExperience_selectedSkills.
    destruct (find (has_name n) (selectedSkills s)) as [sk|] eqn:Hf.
    + destruct (find (has_name n)
                  (assign_experience n (parseInt v1) (selectedSkills s)))
        eqn:Hf'.
      * apply assign_experience_twice.
      * apply find_assign_experience_some in Hf'. congruence.
    + now rewrite Hf.
  - intro Hin. rewrite updateSkillExperience_run.
    apply find_has_name in Hin. now rewrite Hin.
Qed.

Lemma updateSkillExperience_overwrites_witness :
  ~ In "sql" (map name (selectedSkills one_python_3)) /\
  updateSkillExperience "sql" "abc" one_python_3 = (Ok tt, one_python_3).
Proof.
  assert (H : ~ In "sql" (map name (selectedSkills one_python_3))).
  { simpl. intros [H|[]]. discriminate. }
  split; [exact H|].
  exact (proj2 (updateSkillExperience_overwrites one_python_3 "sql" "abc" "1")
               H).
Defined.



(** ** Adding extends the query *)




(** ** Test cases *)

(** X9: for each of the five test cases, and from every state,
    fillTestCase returns normally, discards what was selected and leaves
    exactly the skills of the case, in the order of the table, with the
    stored query their weighted query. *)
Theorem fillTestCase_loads_case
  (s : state) (t : string) (skills : list (string * Z)) :
  In (t, skills) testCases ->
  fillTestCase t s =
  (Ok tt,
   set_interests (toWeightedQuery (case_entries skills))
     (set_selectedSkills (case_skills skills) s)).
Proof.
  intro Hin. destruct s as [l q e eh ih rh lh].
  unfold testCases in Hin. cbn [In] in Hin.
  repeat (destruct Hin as [Hin | Hin];
          [injection Hin as <- <-; reflexivity|]).
  destruct Hin.
Qed.

Lemma fillTestCase_loads_case_witness :
  fillTestCase "bio" one_python_3 =
  (Ok tt,
   mkState [mkSkill "biology" (Int 4); mkSkill "research" (Int 3);
            mkSkill "chemistry" (Int 3); mkSkill "genetics" (Int 2)]
     "biology biology biology biology, research research research, chemistry chemistry chemistry, genetics genetics"
     "" true false true true).
Proof.
  refine (fillTestCase_loads_case one_python_3 "bio"
            [("biology", 4); ("research", 3); ("chemistry", 3);
             ("genetics", 2)] _).
  right. left. reflexivity.
Defined.

Lemma find_key_none {B} (t : string) (l : list (string * B)) :
  ~ In t (map fst l) ->
  find (fun kv => (fst kv =? t)%string) l = None.
Proof.
  induction l as [|kv l IH]; [reflexivity|].
  cbn [map In find]. intro H.
  destruct (fst kv =? t)%string eqn:Hk.
  - apply String.eqb_eq in Hk. exfalso. apply H. now left.
  - apply IH. intro Hin. apply H. now right.
Qed.

Lemma existsb_eqb_In (t : string) (l : list string) :
  existsb (String.eqb t) l = true <-> In t l.
Proof.
  rewrite existsb_exists. split.
  - intros [x [Hin Hx]]. apply String.eqb_eq in Hx. now subst.
  - intro Hin. exists t. split; [exact Hin | apply String.eqb_refl].
Qed.

(** X10: for a name that is no key of the test-case table, fillTestCase
    returns normally and leaves the state as it was, unless the name is
    one that every object inherits: then it has emptied the list when the
    TypeError for the missing skills is thrown, and the stored query is
    left as it was. *)
Theorem fillTestCase_unknown_name (s : state) (t : string) :
  ~ In t (map fst testCases) ->
  (~ In t inherited_names -> fillTestCase t s = (Ok tt, s)) /\
  (In t inherited_names ->
   fillTestCase t s =
   (Throw (TypeError "test.skills is undefined"), set_selectedSkills [] s)).
Proof.
  intro Hk. unfold fillTestCase, testCases_get.
  rewrite (find_key_none t testCases Hk). split; intro Hi.
  - destruct (existsb (String.eqb t) inherited_names) eqn:He; [|reflexivity].
    apply existsb_eqb_In in He. contradiction.
  - apply existsb_eqb_In in Hi. rewrite Hi. reflexivity.
Qed.

Lemma fillTestCase_unknown_name_witness :
  fillTestCase "medicine" one_python_3 = (Ok tt, one_python_3) /\
  fillTestCase "constructor" one_python_3 =
  (Throw (TypeError "test.skills is undefined"),
   mkState [] "python python python" "" true false true true).
Proof.
  split.
  - refine (proj1 (fillTestCase_unknown_name one_python_3 "medicine" _) _).
    + simpl. intuition discriminate.
    + simpl. intuition discriminate.
  - refine (proj2 (fillTestCase_unknown_name one_python_3 "constructor" _) _).
    + simpl. intuition discriminate.
    + simpl. tauto.
Defined.

(** * Strings: split, trim and sort *)

(** ** split and join *)

Lemma split_not_nil (sep : ascii) (s : string) : split sep s <> [].
Proof.
  destruct s as [|c r]; cbn [split]; [discriminate|].
  destruct (Ascii.eqb c sep); [discriminate|].
  destruct (split sep r); discriminate.
Qed.

Lemma concat_split (sep : ascii) (s : string) :
  String.concat (String sep "") (split sep s) = s.
Proof.
  induction s as [|c r IH]; [reflexivity|].
  cbn [split]. destruct (Ascii.eqb c sep) eqn:Hc.
  - apply Ascii.eqb_eq in Hc. subst c.
    pose proof (split_not_nil sep r) as Hne.
    destruct (split sep r) as [|p ps]; [contradiction|].
    change (String.concat (String sep "") ("" :: p :: ps))
      with (String sep (String.concat (String sep "") (p :: ps))).
    now rewrite IH.
  - pose proof (split_not_nil sep r) as Hne.
    destruct (split sep r) as [|p ps]; [contradiction|].
    rewrite <- IH. destruct ps; reflexivity.
Qed.

Lemma split_pieces (sep : ascii) (s : string) :
  Forall (fun p => contains sep p = false) (split sep s).
Proof.
  induction s as [|c r IH]; [repeat constructor|].
  cbn [split]. destruct (Ascii.eqb c sep) eqn:Hc.
  - constructor; [reflexivity | exact IH].
  - destruct (split sep r) as [|p ps]; [repeat constructor; cbn; now rewrite Hc|].
    inversion IH as [|? ? Hp Hps]; subst. constructor; [|exact Hps].
    cbn [contains]. now rewrite Hc, Hp.
Qed.

Lemma split_no_sep (sep : ascii) (p : string) :
  contains sep p = false -> split sep p = [p].
Proof.
  induction p as [|c r IH]; [reflexivity|].
  cbn [contains split]. intro H. apply orb_false_iff in H as [Hc Hr].
  rewrite Hc, (IH Hr). reflexivity.
Qed.

Lemma split_append (sep : ascii) (p rest : string) :
  contains sep p = false ->
  split sep (p ++ String sep rest) = p :: split sep rest.
Proof.
  induction p as [|c r IH]; intro H.
  - cbn [append split]. now rewrite Ascii.eqb_refl.
  - cbn [contains] in H. apply orb_false_iff in H as [Hc Hr].
    cbn [append split]. rewrite Hc, (IH Hr). reflexivity.
Qed.

Lemma split_concat (sep : ascii) (pieces : list string) :
  pieces <> [] ->
  Forall (fun p => contains sep p = false) pieces ->
  split sep (String.concat (String sep "") pieces) = pieces.
Proof.
  induction pieces as [|p ps IH]; [contradiction|].
  intros _ Hall. inversion Hall as [|? ? Hp Hps]; subst.
  destruct ps as [|q qs].
  - cbn [String.concat]. now apply split_no_sep.
  - change (String.concat (String sep "") (p :: q :: qs))
      with (p ++ String sep (String.concat (String sep "") (q :: qs))).
    rewrite split_append by exact Hp.
    rewrite IH; [reflexivity | discriminate | exact Hps].
Qed.

(** X11: split and join with the same one-character separator undo each
    other.  Joining the pieces of a string gives the string back; no piece
    contains the separator and there is always at least one piece; and
    splitting the join of pieces that are free of the separator gives the
    pieces back. *)
Theorem split_join_round_trip (sep : ascii) :
  (forall s, join (String sep "") (map Some (split sep s)) = s) /\
  (forall s, split sep s <> [] /\
             Forall (fun p => contains sep p = false) (split sep s)) /\
  (forall pieces,
     pieces <> [] ->
     Forall (fun p => contains sep p = false) pieces ->
     split sep (join (String sep "") (map Some pieces)) = pieces).
Proof.
  assert (Hj : forall l, join (String sep "") (map Some l) =
                         String.concat (String sep "") l).
  { intro l. rewrite join_concat, map_map. cbn [elementToString].
    now rewrite map_id. }
  repeat split.
  - intro s. rewrite Hj. apply concat_split.
  - apply split_not_nil.
  - apply split_pieces.
  - intros pieces Hne Hall. rewrite Hj. now apply split_concat.
Qed.

Lemma split_join_round_trip_witness :
  split space (join " " (map Some ["python"; "sql"; ""; "design"])) =
  ["python"; "sql"; ""; "design"].
Proof.
  refine (proj2 (proj2 (split_join_round_trip space)) _ _ _).
  - discriminate.
  - repeat constructor.
Defined.

(** ** trim *)

Lemma trimStart_starts (s : string) : starts_white (trimStart s) = false.
Proof.
  induction s as [|c r IH]; [reflexivity|].
  cbn [trimStart]. destruct (isWhiteSpace c) eqn:Hc; [exact IH|].
  cbn [starts_white]. exact Hc.
Qed.

Lemma trimStart_fixed (s : string) :
  starts_white s = false -> trimStart s = s.
Proof.
  destruct s as [|c r]; [reflexivity|].
  cbn [starts_white trimStart]. now intros ->.
Qed.

Lemma trimEnd_starts (s : string) :
  starts_white s = false -> starts_white (trimEnd s) = false.
Proof.
  destruct s as [|c r]; [reflexivity|].
  cbn [starts_white trimEnd]. intro Hc. rewrite Hc. cbn [andb starts_white].
  exact Hc.
Qed.

Lemma trimEnd_ends (s : string) : ends_white (trimEnd s) = false.
Proof.
  induction s as [|c r IH]; [reflexivity|].
  cbn [trimEnd].
  destruct (isWhiteSpace c) eqn:Hc; cbn [andb].
  - destruct (trimEnd r) as [|d r'] eqn:Hr; cbn [String.eqb]; [reflexivity|].
    exact IH.
  - destruct (trimEnd r) as [|d r'] eqn:Hr; [cbn; exact Hc | exact IH].
Qed.

Lemma trimEnd_fixed (s : string) : trimEnd (trimEnd s) = trimEnd s.
Proof.
  induction s as [|c r IH]; [reflexivity|].
  cbn [trimEnd].
  destruct (isWhiteSpace c && (trimEnd r =? "")%string) eqn:Hb;
    [reflexivity|].
  cbn [trimEnd]. now rewrite IH, Hb.
Qed.

Lemma all_white_cons (c : ascii) (r : string) :
  all_white (String c r) <-> isWhiteSpace c = true /\ all_white r.
Proof.
  unfold all_white. cbn [list_ascii_of_string]. split.
  - intro H. inversion H; subst. now split.
  - intros [Hc Hr]. now constructor.
Qed.

Lemma trimEnd_empty (s : string) : trimEnd s = "" <-> all_white s.
Proof.
  induction s as [|c r IH]; [split; [constructor | reflexivity]|].
  rewrite all_white_cons. cbn [trimEnd].
  destruct (isWhiteSpace c) eqn:Hc; cbn [andb].
  - destruct (trimEnd r =? "")%string eqn:Hr.
    + apply String.eqb_eq in Hr. split; [|reflexivity].
      intros _. split; [reflexivity | now apply IH].
    + apply String.eqb_neq in Hr. split; [discriminate|].
      intros [_ Hw]. apply IH in Hw. contradiction.
  - split; [discriminate | intros [H _]; discriminate].
Qed.

Lemma trimStart_empty (s : string) : trimStart s = "" <-> all_white s.
Proof.
  induction s as [|c r IH]; [split; [constructor | reflexivity]|].
  rewrite all_white_cons. cbn [trimStart].
  destruct (isWhiteSpace c) eqn:Hc.
  - rewrite IH. tauto.
  - split; [discriminate | intros [H _]; discriminate].
Qed.

Lemma trimStart_all_white (s : string) :
  all_white (trimStart s) <-> all_white s.
Proof.
  induction s as [|c r IH]; [reflexivity|].
  cbn [trimStart]. destruct (isWhiteSpace c) eqn:Hc; [|reflexivity].
  rewrite IH, all_white_cons. tauto.
Qed.

Lemma trim_ends (s : string) :
  starts_white (trim s) = false /\ ends_white (trim s) = false.
Proof.
  unfold trim. split.
  - apply trimEnd_starts, trimStart_starts.
  - apply trimEnd_ends.
Qed.

Lemma trim_fixed (s : string) : trim (trim s) = trim s.
Proof.
  unfold trim. rewrite (trimStart_fixed (trimEnd (trimStart s))).
  - apply trimEnd_fixed.
  - apply trimEnd_starts, trimStart_starts.
Qed.

Lemma trim_empty (s : string) : trim s = "" <-> all_white s.
Proof. unfold trim. now rewrite trimEnd_empty, trimStart_all_white. Qed.

(** X12: trim leaves no white space at either end of its result, changes
    nothing when applied to its own result, and gives the empty string
    exactly for the strings made of white space only. *)
Theorem trim_properties (s : string) :
  starts_white (trim s) = false /\ ends_white (trim s) = false /\
  trim (trim s) = trim s /\
  (trim s = "" <-> all_white s).
Proof.
  destruct (trim_ends s) as [H1 H2].
  repeat split; try assumption.
  - apply trim_fixed.
  - apply trim_empty.
  - apply trim_empty.
Qed.

(** ** sort *)

Lemma ascii_compare_refl (x : ascii) : Ascii.compare x x = Eq.
Proof. unfold Ascii.compare. apply N.compare_refl. Qed.

Lemma ascii_compare_lt_trans (x y z : ascii) :
  Ascii.compare x y = Lt -> Ascii.compare y z = Lt -> Ascii.compare x z = Lt.
Proof.
  unfold Ascii.compare. rewrite !N.compare_lt_iff. apply N.lt_trans.
Qed.

Lemma string_le_trans (a b c : string) :
  string_le a b -> string_le b c -> string_le a c.
Proof.
  unfold string_le, String.leb. revert b c.
  induction a as [|x a IH]; intros [|y b] [|z c]; cbn [String.compare];
    try (intros; reflexivity); try (intros; discriminate).
  destruct (Ascii.compare x y) eqn:Hxy; [| |intros; discriminate].
  - apply Ascii.compare_eq_iff in Hxy. subst y.
    destruct (Ascii.compare x z); [apply IH | reflexivity | intros; discriminate].
  - intros _. destruct (Ascii.compare y z) eqn:Hyz; [| |intros; discriminate].
    + apply Ascii.compare_eq_iff in Hyz. subst z. now rewrite Hxy.
    + now rewrite (ascii_compare_lt_trans x y z Hxy Hyz).
Qed.

Lemma insert_perm (x : string) (l : list string) :
  Permutation (insert x l) (x :: l).
Proof.
  induction l as [|y rest IH]; [reflexivity|].
  cbn [insert]. destruct (x <=? y)%string; [reflexivity|].
  rewrite IH. apply perm_swap.
Qed.

Lemma sort_perm (l : list string) : Permutation (sort l) l.
Proof.
  induction l as [|x l IH]; [reflexivity|].
  cbn [sort fold_right]. fold (sort l). rewrite insert_perm. now constructor.
Qed.

Lemma insert_sorted (x : string) (l : list string) :
  StronglySorted string_le l -> StronglySorted string_le (insert x l).
Proof.
  induction 1 as [|y rest Hs IH Hy]; [repeat constructor|].
  cbn [insert]. destruct (x <=? y)%string eqn:Hxy.
  - constructor; [now constructor|]. constructor; [exact Hxy|].
    eapply Forall_impl; [|exact Hy].
    intros z Hz. now apply (string_le_trans x y z).
  - constructor; [exact IH|].
    apply (Permutation_Forall (Permutation_sym (insert_perm x rest))).
    constructor; [|exact Hy].
    destruct (String.leb_total x y) as [H|H]; [congruence | exact H].
Qed.

Lemma sort_sorted (l : list string) : StronglySorted string_le (sort l).
Proof.
  induction l as [|x l IH]; [constructor|].
  cbn [sort fold_right]. fold (sort l). now apply insert_sorted.
Qed.

Lemma sorted_perm_unique (l1 l2 : list string) :
  StronglySorted string_le l1 -> StronglySorted string_le l2 ->
  Permutation l1 l2 -> l1 = l2.
Proof.
  revert l2. induction l1 as [|a l1 IH]; intros l2 H1 H2 Hp.
  - now apply Permutation_nil in Hp.
  - destruct l2 as [|b l2];
      [symmetry in Hp; now apply Permutation_nil in Hp|].
    apply StronglySorted_inv in H1 as [H1 Ha].
    apply StronglySorted_inv in H2 as [H2 Hb].
    assert (Hab : a = b).
    { assert (Hin1 : In a (b :: l2))
        by (apply (Permutation_in _ Hp); now left).
      assert (Hin2 : In b (a :: l1))
        by (apply (Permutation_in _ (Permutation_sym Hp)); now left).
      destruct Hin1 as [->|Hin1]; [reflexivity|].
      destruct Hin2 as [->|Hin2]; [reflexivity|].
      rewrite Forall_forall in Ha, Hb.
      apply String.leb_antisym; [now apply Ha | now apply Hb]. }
    subst b. f_equal. apply IH; try assumption.
    now apply Permutation_cons_inv in Hp.
Qed.

(** X13: the default sort gives an ascending arrangement of the array it
    is given, with every element kept as often as it occurred, and that
    arrangement is the only ascending one: what sort returns does not
    depend on the sorting algorithm. *)
Theorem sort_ascending_unique (l : list string) :
  StronglySorted string_le (sort l) /\
  Permutation (sort l) l /\
  (forall l', StronglySorted string_le l' -> Permutation l' l -> l' = sort l).
Proof.
  repeat split.
  - apply sort_sorted.
  - apply sort_perm.
  - intros l' Hs Hp. apply sorted_perm_unique; [exact Hs | apply sort_sorted|].
    rewrite Hp. symmetry. apply sort_perm.
Qed.

Lemma sort_ascending_unique_witness :
  ["java"; "python"; "sql"] = sort ["sql"; "java"; "python"].
Proof.
  refine (proj2 (proj2 (sort_ascending_unique ["sql"; "java"; "python"]))
            ["java"; "python"; "sql"] _ _).
  - repeat constructor.
  - apply Permutation_sym. apply (perm_trans (perm_swap _ _ _)).
    apply perm_skip. apply perm_swap.
Defined.

(** ** loadSkills *)

Lemma contains_trimStart (c : ascii) (s : string) :
  contains c s = false -> contains c (trimStart s) = false.
Proof.
  induction s as [|d r IH]; [reflexivity|].
  cbn [trimStart]. destruct (isWhiteSpace d); [|tauto].
  cbn [contains]. intro H. apply orb_false_iff in H as [_ Hr]. now apply IH.
Qed.

Lemma contains_trimEnd (c : ascii) (s : string) :
  contains c s = false -> contains c (trimEnd s) = false.
Proof.
  induction s as [|d r IH]; [reflexivity|].
  cbn [contains trimEnd]. intro H. apply orb_false_iff in H as [Hd Hr].
  destruct (isWhiteSpace d && (trimEnd r =? "")%string); [reflexivity|].
  cbn [contains]. now rewrite Hd, IH.
Qed.

Lemma contains_trim (c : ascii) (s : string) :
  contains c s = false -> contains c (trim s) = false.
Proof. intro H. unfold trim. now apply contains_trimEnd, contains_trimStart. Qed.

Lemma length_positive (s : string) :
  (0 <? String.length s)%nat = true <-> s <> "".
Proof.
  destruct s; cbn; split; intro H; try reflexivity; try discriminate.
  now contradiction H.
Qed.

(** X14: whatever the fetch of the skills file yields, availableSkills is
    in ascending order.  From a text, it holds exactly the trimmed lines
    that are not empty: each name has no white space at either end and no
    line break, and blank lines give no name. *)
Theorem loadSkills_sorted_trimmed (text : string) :
  (forall response, StronglySorted string_le (loadSkills response)) /\
  (forall x, In x (loadSkills (Some text)) <->
             x <> "" /\
             exists line, In line (split newline text) /\ x = trim line) /\
  Forall (fun x => x <> "" /\ starts_white x = false /\
                   ends_white x = false /\ contains newline x = false)
         (loadSkills (Some text)).
Proof.
  assert (Hmem : forall x, In x (loadSkills (Some text)) <->
             x <> "" /\
             exists line, In line (split newline text) /\ x = trim line).
  { intro x. cbn [loadSkills]. split.
    - intro Hin. apply (Permutation_in _ (sort_perm _)) in Hin.
      apply filter_In in Hin as [Hin Hlen]. apply length_positive in Hlen.
      apply in_map_iff in Hin as [line [Hx Hline]]. split; [exact Hlen|].
      exists line. now split.
    - intros [Hne [line [Hline Hx]]].
      apply (Permutation_in _ (Permutation_sym (sort_perm _))).
      apply filter_In. split; [|now apply length_positive].
      apply in_map_iff. exists line. now split. }
  split; [|split].
  - intros [t|]; apply sort_sorted.
  - exact Hmem.
  - apply Forall_forall. intros x Hin. apply Hmem in Hin.
    destruct Hin as [Hne [line [Hline ->]]].
    destruct (trim_ends line) as [H1 H2]. repeat split; try assumption.
    apply contains_trim.
    pose proof (split_pieces newline text) as Hp.
    rewrite Forall_forall in Hp. now apply Hp.
Qed.

(** ** The skill tags of a card *)

(** X15: the tags cut from the skills string of a recommendation are
    never blank and contain no space; and for words that are not blank
    and contain no space, joined by single spaces, the tags are those
    words in their order. *)
Theorem card_skills_tags (rec_skills : string) :
  Forall (fun tag => ~ all_white tag /\ contains space tag = false)
         (card_skills rec_skills) /\
  (forall words,
     Forall (fun w => ~ all_white w /\ contains space w = false) words ->
     card_skills (String.concat " " words) = words).
Proof.
  split.
  - apply Forall_forall. intros tag Hin. unfold card_skills in Hin.
    apply filter_In in Hin as [Hin Hb]. split.
    + intro Hw. apply trim_empty in Hw. rewrite Hw in Hb. discriminate.
    + pose proof (split_pieces space rec_skills) as Hp.
      rewrite Forall_forall in Hp. now apply Hp.
  - intros words Hall. unfold card_skills.
    destruct words as [|w ws]; [reflexivity|].
    change " " with (String space "").
    rewrite split_concat; [|discriminate|].
    + apply forallb_filter_id. apply forallb_forall. intros x Hx.
      rewrite Forall_forall in Hall. destruct (Hall x Hx) as [Hw _].
      apply negb_true_iff. apply String.eqb_neq. intro Ht.
      apply Hw. now apply trim_empty.
    + eapply Forall_impl; [|exact Hall]. now intros x [_ Hx].
Qed.

Lemma card_skills_tags_witness :
  card_skills "python sql design" = ["python"; "sql"; "design"].
Proof.
  refine (proj2 (card_skills_tags "") ["python"; "sql"; "design"] _).
  repeat constructor; try reflexivity; intro H; inversion H; discriminate.
Defined.

(** * truncateSentences *)

(** ** The cleaned text *)

Lemma collapse_white_starts (s : string) :
  starts_white s = false -> starts_white (collapse_white s) = false.
Proof.
  destruct s as [|c r]; [reflexivity|].
  cbn [starts_white collapse_white]. intro Hc. rewrite Hc. exact Hc.
Qed.

Lemma space_is_white : isWhiteSpace space = true.
Proof. reflexivity. Qed.

Lemma collapse_white_single (s : string) :
  single_spaced (collapse_white s) = true.
Proof.
  induction s as [|c r IH]; [reflexivity|].
  cbn [collapse_white]. destruct (isWhiteSpace c) eqn:Hc.
  - destruct r as [|d r']; [reflexivity|].
    destruct (isWhiteSpace d) eqn:Hd; [exact IH|].
    cbn [single_spaced]. rewrite IH, Ascii.eqb_refl.
    rewrite collapse_white_starts by (cbn [starts_white]; exact Hd).
    reflexivity.
  - cbn [single_spaced]. now rewrite Hc, IH.
Qed.

Lemma collapse_white_fixed (s : string) :
  single_spaced s = true -> collapse_white s = s.
Proof.
  induction s as [|c r IH]; [reflexivity|].
  cbn [single_spaced collapse_white]. intro H.
  apply andb_true_iff in H as [Hc Hr]. rewrite (IH Hr).
  destruct (isWhiteSpace c) eqn:Hw; [|reflexivity].
  cbn [negb orb] in Hc. apply andb_true_iff in Hc as [Hs Hn].
  apply Ascii.eqb_eq in Hs. subst c. apply negb_true_iff in Hn.
  destruct r as [|d r']; [reflexivity|].
  cbn [starts_white] in Hn. now rewrite Hn.
Qed.

Lemma single_spaced_trimStart (s : string) :
  single_spaced s = true -> single_spaced (trimStart s) = true.
Proof.
  induction s as [|c r IH]; [reflexivity|].
  cbn [trimStart]. destruct (isWhiteSpace c); [|tauto].
  cbn [single_spaced]. intro H. apply andb_true_iff in H as [_ Hr].
  now apply IH.
Qed.

Lemma trimEnd_starts_white (s : string) :
  starts_white s = false -> starts_white (trimEnd s) = false.
Proof. apply trimEnd_starts. Qed.

Lemma single_spaced_trimEnd (s : string) :
  single_spaced s = true -> single_spaced (trimEnd s) = true.
Proof.
  induction s as [|c r IH]; [reflexivity|].
  cbn [single_spaced trimEnd]. intro H.
  apply andb_true_iff in H as [Hc Hr].
  destruct (isWhiteSpace c && (trimEnd r =? "")%string); [reflexivity|].
  cbn [single_spaced]. rewrite (IH Hr), andb_true_r.
  apply orb_true_iff in Hc as [Hc | Hc]; [now rewrite Hc|].
  apply andb_true_iff in Hc as [Hs Hn]. rewrite Hs.
  apply negb_true_iff in Hn. rewrite (trimEnd_starts_white r Hn).
  now rewrite orb_true_r.
Qed.

Lemma collapse_white_all_white (s : string) :
  all_white (collapse_white s) <-> all_white s.
Proof.
  induction s as [|c r IH]; [reflexivity|].
  rewrite all_white_cons. cbn [collapse_white].
  destruct (isWhiteSpace c) eqn:Hc.
  - destruct r as [|d r'].
    + rewrite all_white_cons. rewrite space_is_white. tauto.
    + destruct (isWhiteSpace d) eqn:Hd; [rewrite IH; tauto|].
      rewrite all_white_cons, IH, space_is_white. tauto.
  - rewrite all_white_cons, Hc. tauto.
Qed.

Lemma clean_empty (text : string) :
  trim (collapse_white text) = "" <-> all_white text.
Proof. now rewrite trim_empty, collapse_white_all_white. Qed.

Lemma clean_single (text : string) :
  single_spaced (trim (collapse_white text)) = true.
Proof.
  unfold trim. apply single_spaced_trimEnd, single_spaced_trimStart.
  apply collapse_white_single.
Qed.

Lemma clean_fixed (text : string) :
  trim (collapse_white (trim (collapse_white text))) =
  trim (collapse_white text).
Proof.
  rewrite (collapse_white_fixed _ (clean_single text)). apply trim_fixed.
Qed.

(** X16: the cleaned text that truncateSentences works on has white space
    only as single spaces between other characters, none at either end;
    cleaning it again changes nothing; and it is empty exactly when the
    text is white space only. *)
Theorem clean_text_normal (text : string) :
  let clean := trim (collapse_white text) in
  single_spaced clean = true /\
  starts_white clean = false /\ ends_white clean = false /\
  trim (collapse_white clean) = clean /\
  (clean = "" <-> all_white text).
Proof.
  cbv zeta. destruct (trim_ends (collapse_white text)) as [H1 H2].
  split; [apply clean_single|]. split; [exact H1|]. split; [exact H2|].
  split; [apply clean_fixed | apply clean_empty].
Qed.

(** ** The result *)

Lemma starts_white_append (a b : string) :
  a <> "" -> starts_white (a ++ b) = starts_white a.
Proof. destruct a; [contradiction | reflexivity]. Qed.

Lemma ends_white_append (a : string) (c : ascii) (b : string) :
  ends_white (a ++ String c b) = ends_white (String c b).
Proof.
  induction a as [|d a IH]; [reflexivity|].
  cbn [append]. change (ends_white (String d (a ++ String c b)))
    with (match a ++ String c b with
          | EmptyString => isWhiteSpace d
          | String _ _ => ends_white (a ++ String c b)
          end).
  destruct (a ++ String c b) eqn:Ha; [destruct a; discriminate|].
  exact IH.
Qed.

Lemma sentences_trimmed (matches : list string) (x : string) :
  In x (filter (fun s => negb (s =? "")%string)
               (map (fun s => trim s) matches)) ->
  x <> "" /\ starts_white x = false.
Proof.
  intro Hin. apply filter_In in Hin as [Hin Hne].
  apply negb_true_iff, String.eqb_neq in Hne. split; [exact Hne|].
  apply in_map_iff in Hin as [m [<- _]]. apply trim_ends.
Qed.

Lemma not_all_white_start (s : string) :
  s <> "" -> starts_white s = false -> ~ all_white s.
Proof.
  destruct s as [|c r]; [contradiction|].
  cbn [starts_white]. intros _ Hc Hw. apply all_white_cons in Hw as [Hw _].
  congruence.
Qed.

Lemma kept_not_blank (n : nat) (sentences : list string) :
  (1 <= n)%nat -> sentences <> [] ->
  (forall x, In x sentences -> x <> "" /\ starts_white x = false) ->
  trim (join " " (map Some (firstn n sentences))) <> "".
Proof.
  intros Hn Hne Hall Ht. apply trim_empty in Ht.
  destruct sentences as [|x xs]; [contradiction|].
  destruct n as [|n]; [lia|].
  cbn [firstn map] in Ht. rewrite join_concat in Ht. cbn [map] in Ht.
  rewrite concat_cons in Ht. cbn [elementToString] in Ht.
  destruct (Hall x (or_introl eq_refl)) as [Hx Hs].
  destruct x as [|c r]; [contradiction|].
  cbn [append] in Ht. apply all_white_cons in Ht as [Hc _].
  cbn [starts_white] in Hs. congruence.
Qed.

Lemma take_while_all (p : ascii -> bool) (s : string) :
  all_chars p s = true -> take_while p s = s /\ drop_while p s = "".
Proof.
  induction s as [|c r IH]; [split; reflexivity|].
  cbn [all_chars take_while drop_while]. intro H.
  apply andb_true_iff in H as [Hc Hr]. rewrite Hc.
  destruct (IH Hr) as [-> ->]. split; reflexivity.
Qed.

Lemma match_sentences_skipped (k : nat) (s : string) :
  (String.length s <= k)%nat -> match_sentences k s = [].
Proof.
  revert k. induction s as [|c r IH]; intros k Hk; [reflexivity|].
  cbn [String.length] in Hk. destruct k as [|k]; [lia|].
  cbn [match_sentences]. apply IH. lia.
Qed.

Lemma match_sentences_one (s : string) :
  s <> "" -> all_chars (fun c => negb (isSentenceEnd c)) s = true ->
  match_sentences 0 s = [s].
Proof.
  intros Hne Hall. destruct s as [|c r]; [contradiction|].
  cbn [match_sentences]. unfold sentence_at.
  destruct (take_while_all _ _ Hall) as [-> ->].
  cbn [take_while drop_while String.eqb negb andb].
  cbn [String.length Nat.pred].
  now rewrite match_sentences_skipped.
Qed.

Lemma all_chars_trimStart (p : ascii -> bool) (s : string) :
  all_chars p s = true -> all_chars p (trimStart s) = true.
Proof.
  induction s as [|c r IH]; [reflexivity|].
  cbn [trimStart]. destruct (isWhiteSpace c); [|tauto].
  cbn [all_chars]. intro H. apply andb_true_iff in H as [_ Hr]. now apply IH.
Qed.

Lemma all_chars_trimEnd (p : ascii -> bool) (s : string) :
  all_chars p s = true -> all_chars p (trimEnd s) = true.
Proof.
  induction s as [|c r IH]; [reflexivity|].
  cbn [all_chars trimEnd]. intro H. apply andb_true_iff in H as [Hc Hr].
  destruct (isWhiteSpace c && (trimEnd r =? "")%string); [reflexivity|].
  cbn [all_chars]. now rewrite Hc, IH.
Qed.

Lemma all_chars_collapse (p : ascii -> bool) (s : string) :
  p space = true -> all_chars p s = true ->
  all_chars p (collapse_white s) = true.
Proof.
  intro Hsp. induction s as [|c r IH]; [reflexivity|].
  cbn [all_chars collapse_white]. intro H.
  apply andb_true_iff in H as [Hc Hr].
  destruct (isWhiteSpace c).
  - destruct r as [|d r']; [cbn [all_chars]; now rewrite Hsp|].
    destruct (isWhiteSpace d); [now apply IH|].
    cbn [all_chars]. now rewrite Hsp, IH.
  - cbn [all_chars]. now rewrite Hc, IH.
Qed.

(** X17: truncateSentences gives the empty string for null and for text
    that is white space only.  Otherwise the result is the cleaned text
    or ends with a space and three dots, and for a limit of at least one
    sentence it has no white space at either end.  It depends on the
    cleaned text only, and a text with none of the characters . ! ? is
    returned cleaned and whole under any such limit. *)
Theorem truncateSentences_result (text : string) (maxSentences : option nat) :
  let result := truncateSentences (Some text) maxSentences in
  truncateSentences None maxSentences = "" /\
  (all_white text -> result = "") /\
  (result = trim (collapse_white text) \/
   exists kept, result = kept ++ " ...") /\
  ((1 <= default_max maxSentences)%nat ->
   starts_white result = false /\ ends_white result = false) /\
  truncateSentences (Some (trim (collapse_white text))) maxSentences = result /\
  ((1 <= default_max maxSentences)%nat ->
   all_chars (fun c => negb (isSentenceEnd c)) text = true ->
   result = trim (collapse_white text)).
Proof.
  cbv zeta. split; [reflexivity|].
  split.
  { intro Hw. apply clean_empty in Hw. unfold truncateSentences.
    now rewrite Hw. }
  split.
  { unfold truncateSentences.
    destruct (trim (collapse_white text) =? "")%string eqn:He.
    - left. apply String.eqb_eq in He. now rewrite He.
    - destruct (_ <=? _)%nat; [now left | right; eauto]. }
  split.
  { intro Hmax. unfold truncateSentences.
    destruct (trim_ends (collapse_white text)) as [H1 H2].
    destruct (trim (collapse_white text) =? "")%string eqn:He;
      [split; reflexivity|].
    set (sentences := filter _ _).
    destruct (List.length sentences <=? default_max maxSentences)%nat eqn:Hl;
      [now split|].
    apply Nat.leb_gt in Hl.
    assert (Hne : sentences <> []) by (intros ->; cbn in Hl; lia).
    pose proof (kept_not_blank (default_max maxSentences) sentences Hmax Hne
                  (sentences_trimmed _)) as Hk.
    split.
    - rewrite starts_white_append by exact Hk. apply trim_ends.
    - rewrite ends_white_append. reflexivity. }
  split.
  { unfold truncateSentences. now rewrite clean_fixed. }
  intros Hmax Hall. unfold truncateSentences.
  destruct (trim (collapse_white text) =? "")%string eqn:He.
  - apply String.eqb_eq in He. now rewrite He.
  - apply String.eqb_neq in He.
    rewrite match_sentences_one; [|exact He|].
    + cbn [map filter]. rewrite trim_fixed.
      apply String.eqb_neq in He. rewrite He. cbn [negb List.length].
      destruct (Nat.leb_spec 1 (default_max maxSentences)); [reflexivity|lia].
    + unfold trim. apply all_chars_trimEnd, all_chars_trimStart.
      apply all_chars_collapse; [reflexivity | exact Hall].
Qed.

Lemma truncateSentences_result_witness :
  truncateSentences (Some "  Learn   SQL and Python	fast  ") None =
  "Learn SQL and Python fast".
Proof.
  refine (proj2 (proj2 (proj2 (proj2 (proj2
            (truncateSentences_result "  Learn   SQL and Python	fast  " None)))))
            _ eq_refl).
  cbn. lia.
Defined.

(** * parseInt on the strings of the level controls *)

Lemma trimStart_white_prefix (w s : string) :
  all_white w -> trimStart (w ++ s) = trimStart s.
Proof.
  induction w as [|c w IH]; [reflexivity|].
  intro H. apply all_white_cons in H as [Hc Hw].
  cbn [append trimStart]. rewrite Hc. now apply IH.
Qed.

Lemma parseDigits_prefix (d rest : string) (acc : Z) (seen : bool) :
  all_chars decimal d = true -> starts_with decimal rest = false ->
  parseDigits 10 (d ++ rest) acc seen = parseDigits 10 d acc seen.
Proof.
  revert acc seen. induction d as [|c d IH]; intros acc seen Hd Hr.
  - cbn [append parseDigits]. destruct rest as [|y r]; [reflexivity|].
    cbn [starts_with] in Hr. unfold decimal in Hr. cbn [parseDigits].
    destruct (radixDigit 10 y); [discriminate | reflexivity].
  - cbn [all_chars] in Hd. apply andb_true_iff in Hd as [Hc Hd].
    cbn [append parseDigits]. destruct (radixDigit 10 c); [|reflexivity].
    now apply IH.
Qed.

Lemma radixDigit_decimal (c : ascii) :
  decimal c = true -> radixDigit 10 c = Some (digit c) /\ 0 <= digit c <= 9.
Proof.
  unfold decimal, radixDigit, digit.
  destruct (digitValue c) as [v|] eqn:Hv; [|discriminate].
  destruct (Z.ltb_spec v 10); [|discriminate]. intros _.
  split; [reflexivity|].
  unfold digitValue in Hv.
  repeat match type of Hv with
         | context [if ?b then _ else _] => destruct b eqn:?
         end; try discriminate; injection Hv as <-; lia.
Qed.

Lemma decimal_value_nonneg (d : string) :
  all_chars decimal d = true -> 0 <= decimal_value d.
Proof.
  induction d as [|c d IH]; [reflexivity|].
  cbn [all_chars decimal_value]. intro H.
  apply andb_true_iff in H as [Hc Hd].
  destruct (radixDigit_decimal c Hc) as [_ Hv]. specialize (IH Hd).
  assert (0 <= 10 ^ Z.of_nat (String.length d)) by (apply Z.pow_nonneg; lia).
  nia.
Qed.

(** The accumulator of parseDigits against the value of the run. *)
Lemma parseDigits_value (c : ascii) (d : string) (acc : Z) (seen : bool) :
  all_chars decimal (String c d) = true ->
  parseDigits 10 (String c d) acc seen =
  Some (acc * 10 ^ Z.of_nat (String.length (String c d)) +
        decimal_value (String c d)).
Proof.
  revert c acc seen. induction d as [|y d IH]; intros c acc seen Hd.
  - cbn [all_chars] in Hd. apply andb_true_iff in Hd as [Hc _].
    destruct (radixDigit_decimal c Hc) as [Hr _].
    cbn [parseDigits]. rewrite Hr. cbn [parseDigits decimal_value String.length].
    f_equal. change (Z.of_nat 1) with 1. change (Z.of_nat 0) with 0.
    rewrite Z.pow_1_r, Z.pow_0_r. lia.
  - cbn [all_chars] in Hd. apply andb_true_iff in Hd as [Hc Hd].
    destruct (radixDigit_decimal c Hc) as [Hr _].
    cbn [parseDigits]. rewrite Hr.
    change (parseDigits 10 (String y d) (acc * 10 + digit c) true =
            Some (acc * 10 ^ Z.of_nat (S (String.length (String y d))) +
                  (digit c * 10 ^ Z.of_nat (String.length (String y d)) +
                   decimal_value (String y d)))).
    rewrite (IH y (acc * 10 + digit c) true Hd). f_equal.
    rewrite Nat2Z.inj_succ, Z.pow_succ_r by lia. ring.
Qed.

(** The computation of parseInt once the white space ahead is gone, for a
    string that starts with a decimal digit and has no hexadecimal
    marker. *)
Lemma parseInt_digits (c : ascii) (s : string) :
  decimal c = true ->
  (c = "0"%char -> starts_with is_x s = false) ->
  parseInt (String c s) =
  match parseDigits 10 (String c s) 0 false with
  | Some z => Number_of_integer (1 * z)
  | None => NaN
  end.
Proof.
  intros Hc Hx. unfold parseInt.
  destruct c as [[] [] [] [] [] [] [] []]; try discriminate Hc;
    try reflexivity.
  specialize (Hx eq_refl). destruct s as [|y r]; [reflexivity|].
  cbn [starts_with] in Hx.
  destruct y as [[] [] [] [] [] [] [] []]; try discriminate Hx;
    reflexivity.
Qed.

Lemma Number_of_integer_exact (z : Z) :
  0 <= z < 2 ^ 53 -> Number_of_integer z = Int z.
Proof.
  intro Hz. unfold Number_of_integer, round_binary64.
  rewrite Z.abs_eq by lia.
  destruct (Z.ltb_spec z (2 ^ 53)); [|lia].
  destruct (Z.leb_spec (2 ^ 1024) z); [lia|].
  f_equal. destruct z; try reflexivity. lia.
Qed.

(** X18: parseInt reads a level string by its digits: after any white
    space, a run of at most 20 decimal digits gives the Number for the
    decimal value of the run, whatever follows the run, as long as the
    run is not a lone 0 followed by x or X; below 2^53 that Number is the
    value itself. *)
Theorem parseInt_decimal_prefix (w d rest : string) :
  all_white w -> d <> "" -> all_chars decimal d = true ->
  (String.length d <= 20)%nat ->
  starts_with decimal rest = false ->
  (d = "0" -> starts_with is_x rest = false) ->
  parseInt (w ++ d ++ rest) = Number_of_integer (decimal_value d) /\
  0 <= decimal_value d /\
  (decimal_value d < 2 ^ 53 -> parseInt (w ++ d ++ rest) = Int (decimal_value d)).
Proof.
  intros Hw Hne Hd _ Hrest Hx.
  assert (Hmain : parseInt (w ++ d ++ rest) =
                  Number_of_integer (decimal_value d)).
  { destruct d as [|c d]; [contradiction|].
    pose proof Hd as Hall.
    cbn [all_chars] in Hd. apply andb_true_iff in Hd as [Hc Hd].
    assert (Hnw : isWhiteSpace c = false).
    { destruct c as [[] [] [] [] [] [] [] []]; try discriminate Hc;
        reflexivity. }
    assert (Hleft : parseInt (w ++ String c d ++ rest) =
                    parseInt (String c (d ++ rest))).
    { unfold parseInt at 1. rewrite (trimStart_white_prefix w _ Hw).
      cbn [append trimStart]. rewrite Hnw.
      unfold parseInt. cbn [trimStart]. now rewrite Hnw. }
    rewrite Hleft.
    rewrite (parseInt_digits c (d ++ rest) Hc).
    2:{ intros ->. destruct d as [|y d'].
        - cbn [append]. now apply Hx.
        - cbn [append starts_with]. cbn [all_chars] in Hd.
          apply andb_true_iff in Hd as [Hy _].
          destruct y as [[] [] [] [] [] [] [] []]; try discriminate Hy;
            reflexivity. }
    change (String c (d ++ rest)) with (String c d ++ rest).
    rewrite parseDigits_prefix by assumption.
    rewrite (parseDigits_value c d 0 false Hall).
    f_equal. lia. }
  pose proof (decimal_value_nonneg d Hd) as Hpos.
  split; [exact Hmain|]. split; [exact Hpos|].
  intro Hlt. rewrite Hmain. apply Number_of_integer_exact. lia.
Qed.

Lemma parseInt_decimal_prefix_witness :
  parseInt "  4 years" = Int 4 /\
  parseInt "9007199254740993" = Int 9007199254740992.
Proof.
  split.
  - refine (proj2 (proj2 (parseInt_decimal_prefix "  " "4" " years"
                            _ _ _ _ _ _)) _).
    + repeat constructor.
    + discriminate.
    + reflexivity.
    + repeat constructor.
    + reflexivity.
    + discriminate.
    + reflexivity.
  - refine (proj1 (parseInt_decimal_prefix "" "9007199254740993" ""
                     _ _ _ _ _ _)).
    + constructor.
    + discriminate.
    + reflexivity.
    + repeat constructor.
    + reflexivity.
    + discriminate.
Defined.
